(** * build/npm/preinstall.js: a shallow embedding and its properties

    The script is a preflight check run before dependency installation.
    It is embedded as a program in a small state-and-exception monad over
    an explicit description of the host (environment variables, file
    system answers, child-process results).  Regular expressions are kept
    as syntax and run by a backtracking matcher, so every pattern of the
    script can be read off next to its source literal. *)

From Stdlib Require Import List NArith ZArith Bool Ascii String Lia PeanoNat.
Import ListNotations.

Set Implicit Arguments.

(** ** JavaScript strings

    A string is a sequence of UTF-16 code units. *)

Definition code_unit := N.
Definition jsstring := list code_unit.

Definition str (s : string) : jsstring :=
  map N_of_ascii (list_ascii_of_string s).

Fixpoint streq (a b : jsstring) : bool :=
  match a, b with
  | [], [] => true
  | x :: a', y :: b' => N.eqb x y && streq a' b'
  | _, _ => false
  end.

(** Character predicates of ECMAScript, non-unicode mode. *)

Definition lit (c : string) (x : code_unit) : bool :=
  match str c with
  | [y] => N.eqb x y
  | _ => false
  end.

(** [\d] *)
Definition digit (x : code_unit) : bool := (48 <=? x)%N && (x <=? 57)%N.

(** [\w] *)
Definition word (x : code_unit) : bool :=
  ((97 <=? x)%N && (x <=? 122)%N) || ((65 <=? x)%N && (x <=? 90)%N)
  || digit x || N.eqb x 95.

(** LineTerminator: LF, CR, LS, PS. *)
Definition line_terminator (x : code_unit) : bool :=
  N.eqb x 10 || N.eqb x 13 || N.eqb x 8232 || N.eqb x 8233.

(** [\s]: WhiteSpace and LineTerminator (TAB, VT, FF, SP, NBSP, ZWNBSP and
    the Unicode space separators). *)
Definition space (x : code_unit) : bool :=
  line_terminator x
  || N.eqb x 9 || N.eqb x 11 || N.eqb x 12 || N.eqb x 32 || N.eqb x 160
  || N.eqb x 5760 || ((8192 <=? x)%N && (x <=? 8202)%N)
  || N.eqb x 8239 || N.eqb x 8287 || N.eqb x 12288 || N.eqb x 65279.

(** [.] without the s flag. *)
Definition any (x : code_unit) : bool := negb (line_terminator x).

(** A bracketed class is the union of its members. *)
Definition one_of (ps : list (code_unit -> bool)) (x : code_unit) : bool :=
  existsb (fun p => p x) ps.

(** [String.prototype.startsWith] *)
Fixpoint startsWith (s pre : jsstring) : bool :=
  match pre, s with
  | [], _ => true
  | y :: pre', x :: s' => N.eqb x y && startsWith s' pre'
  | _ :: _, [] => false
  end.

Fixpoint trimStart (s : jsstring) : jsstring :=
  match s with
  | x :: s' => if space x then trimStart s' else s
  | [] => []
  end.

(** [String.prototype.trim] *)
Definition trim (s : jsstring) : jsstring :=
  rev (trimStart (rev (trimStart s))).

(** ** Regular expressions

    The fragment used by the script: literals, character classes, greedy
    quantifiers over a class, sequence, alternation, numbered capture
    groups and the two anchors (no m flag). *)

Inductive regex : Type :=
| Eps
| Chr (p : code_unit -> bool)
| Lit (l : jsstring)
| Star (p : code_unit -> bool)
| Plus (p : code_unit -> bool)
| Opt (p : code_unit -> bool)
| Seq (r1 r2 : regex)
| Alt (r1 r2 : regex)
| Group (n : nat) (r : regex)
| Bol
| Eol.

Fixpoint seq (rs : list regex) : regex :=
  match rs with
  | [] => Eps
  | [r] => r
  | r :: rs' => Seq r (seq rs')
  end.

Definition caps := list (nat * jsstring).

Fixpoint cap_lookup (n : nat) (c : caps) : option jsstring :=
  match c with
  | [] => None
  | (m, v) :: c' => if Nat.eqb n m then Some v else cap_lookup n c'
  end.

Fixpoint strip_prefix (l s : jsstring) : option jsstring :=
  match l, s with
  | [], _ => Some s
  | y :: l', x :: s' => if N.eqb x y then strip_prefix l' s' else None
  | _ :: _, [] => None
  end.

Section Matcher.
Variable R : Type.

(** A continuation receives the position reached, the rest of the input
    and the captures so far. *)
Definition cont := nat -> jsstring -> caps -> option R.

(** Greedy iteration of a class: longest run first, then give back one
    code unit at a time. *)
Fixpoint star (p : code_unit -> bool) (i : nat) (s : jsstring) (c : caps)
         (k : cont) : option R :=
  match s with
  | x :: s' =>
      if p x then
        match star p (S i) s' c k with
        | Some r => Some r
        | None => k i s c
        end
      else k i s c
  | [] => k i s c
  end.

Fixpoint mt (r : regex) (i : nat) (s : jsstring) (c : caps) (k : cont)
  : option R :=
  match r with
  | Eps => k i s c
  | Chr p =>
      match s with
      | x :: s' => if p x then k (S i) s' c else None
      | [] => None
      end
  | Lit l =>
      match strip_prefix l s with
      | Some s' => k (i + List.length l) s' c
      | None => None
      end
  | Star p => star p i s c k
  | Plus p =>
      match s with
      | x :: s' => if p x then star p (S i) s' c k else None
      | [] => None
      end
  | Opt p =>
      match s with
      | x :: s' =>
          if p x then
            match k (S i) s' c with
            | Some r => Some r
            | None => k i s c
            end
          else k i s c
      | [] => k i s c
      end
  | Seq r1 r2 => mt r1 i s c (fun i' s' c' => mt r2 i' s' c' k)
  | Alt r1 r2 =>
      match mt r1 i s c k with
      | Some x => Some x
      | None => mt r2 i s c k
      end
  | Group n r1 =>
      mt r1 i s c (fun i' s' c' => k i' s' ((n, firstn (i' - i) s) :: c'))
  | Bol => if Nat.eqb i 0 then k i s c else None
  | Eol =>
      match s with
      | [] => k i s c
      | _ :: _ => None
      end
  end.
End Matcher.

(** The result of [RegExp.prototype.exec]: where the match starts, the
    matched text (element 0) and the captures (elements 1, 2, ...). *)
Record match_result : Type := {
  index : nat;
  matched : jsstring;
  groups : caps
}.

Definition match_at (r : regex) (i : nat) (s : jsstring) : option match_result :=
  mt r i s []
     (fun i' _ c => Some {| index := i; matched := firstn (i' - i) s; groups := c |}).

(** Leftmost match: try every start position in turn. *)
Fixpoint search (r : regex) (i : nat) (s : jsstring) : option match_result :=
  match match_at r i s with
  | Some m => Some m
  | None =>
      match s with
      | [] => None
      | _ :: s' => search r (S i) s'
      end
  end.

Definition exec (r : regex) (s : jsstring) : option match_result := search r 0 s.

Definition test (r : regex) (s : jsstring) : bool :=
  match exec r s with
  | Some _ => true
  | None => false
  end.

(** Element [n >= 1] of a match array; [None] is [undefined]. *)
Definition group (m : match_result) (n : nat) : option jsstring :=
  cap_lookup n (groups m).

Fixpoint ngroups (r : regex) : nat :=
  match r with
  | Seq r1 r2 | Alt r1 r2 => ngroups r1 + ngroups r2
  | Group _ r1 => S (ngroups r1)
  | _ => 0
  end.

(** The [length] of the array a match of [r] yields. *)
Definition match_length (r : regex) : nat := S (ngroups r).

(** [String.prototype.split] with a regular expression that has no
    capture groups.  [skip] counts the code units of a separator still to
    be passed over, [cur] is the current piece, reversed.  An empty match
    splits only when the current piece is not empty. *)
Fixpoint split_go (r : regex) (i : nat) (s : jsstring) (skip : nat)
         (cur : jsstring) : list jsstring :=
  match s with
  | [] => [rev cur]
  | x :: s' =>
      match skip with
      | S n => split_go r (S i) s' n cur
      | O =>
          match mt r i s [] (fun i' _ _ => Some (i' - i)) with
          | Some (S n) => rev cur :: split_go r (S i) s' n []
          | Some O =>
              match cur with
              | [] => split_go r (S i) s' 0 [x]
              | _ :: _ => rev cur :: split_go r (S i) s' 0 [x]
              end
          | None => split_go r (S i) s' 0 (x :: cur)
          end
      end
  end.

Definition split (r : regex) (s : jsstring) : list jsstring :=
  match s with
  | [] =>
      match mt r 0 [] [] (fun _ _ _ => Some tt) with
      | Some _ => []
      | None => [[]]
      end
  | _ :: _ => split_go r 0 s 0 []
  end.

(** [parseInt] on a string of decimal digits: the value of the leading
    run of digits, [None] (NaN) when there is none.  Every argument the
    script passes is the capture of a [(\d+)] group, so the sign, blank
    and radix-prefix cases of [parseInt] are out of reach.  Numbers are
    kept exact: rounding to a double is monotone and fixes the small
    constants the script compares against. *)
Fixpoint digits_value (acc : N) (s : jsstring) : N :=
  match s with
  | x :: s' => if digit x then digits_value (10 * acc + (x - 48)) s' else acc
  | [] => acc
  end.

Definition parseInt (s : option jsstring) : option N :=
  match s with
  | Some (x :: s') => if digit x then Some (digits_value 0 (x :: s')) else None
  | _ => None
  end.

(** Comparisons with a number that may be NaN. *)
Definition num_lt (a : option N) (b : N) : bool :=
  match a with Some x => (x <? b)%N | None => false end.
Definition num_ge (a : option N) (b : N) : bool :=
  match a with Some x => (b <=? x)%N | None => false end.
Definition num_eq (a : option N) (b : N) : bool :=
  match a with Some x => (x =? b)%N | None => false end.
Arguments num_lt a b%_N.
Arguments num_ge a b%_N.
Arguments num_eq a b%_N.

(** ** Values, the host and the effects of the script *)

(** The values that flow through the script where a string is expected:
    [process.env] lookups give a string or [undefined], toolchain
    discovery gives a string or [null]. *)
Inductive value : Type :=
| VUndefined
| VNull
| VStr (s : jsstring).

Definition truthy (v : value) : bool :=
  match v with
  | VStr (_ :: _) => true
  | _ => false
  end.

Definition to_string (v : value) : jsstring :=
  match v with
  | VUndefined => str "undefined"
  | VNull => str "null"
  | VStr s => s
  end.

(** What [child_process.spawnSync] returns: whether [error] is set, and
    [status] ([None] is [null]). *)
Record spawn_result : Type := {
  sp_error : bool;
  sp_status : option Z
}.

(** Everything the script asks of its surroundings.  An answer [None] of
    [readFileSync], [execSync] or [execFileSync] is that call throwing.
    [join] is [path.join] on string segments. *)
Record Host : Type := {
  versions_node : jsstring;
  platform : jsstring;
  env : jsstring -> option jsstring;
  dirname : jsstring;
  join : list jsstring -> jsstring;
  existsSync : jsstring -> bool;
  readFileSync : jsstring -> option jsstring;
  execSync : jsstring -> option jsstring;
  spawnSync : jsstring -> list jsstring -> option jsstring -> spawn_result;
  execFileSync : jsstring -> list jsstring -> option jsstring
}.

(** The diagnostic lines of the script, by name. *)
Inductive message : Type :=
| MsgNodeVersion
| MsgNodeUntested
| MsgYarnVersion
| MsgUseYarn
| MsgToolchain
| MsgVcvarsMissing
| MsgVcvarsStatus (status : Z)
| MsgGypFailed
| MsgBlank.

Inductive event : Type :=
| ConsoleError (m : message)
| ConsoleWarn (m : message)
| EvExecSync (cmd : jsstring)
| EvSpawnSync (file : jsstring) (args : list jsstring) (cwd : option jsstring)
| EvExecFileSync (file : jsstring) (args : list jsstring).

Inductive exn : Type :=
| TypeError_property_of_null
| TypeError_path_argument
| Error_readFileSync (file : jsstring)
| Error_execSync (cmd : jsstring)
| Error_execFileSync (file : jsstring) (args : list jsstring).

(** The module-level [err] flag, and what the run has printed and
    started so far, oldest first. *)
Record state : Type := {
  err : bool;
  log : list event
}.

Inductive res (A : Type) : Type :=
| Ret (a : A)
| Throw (e : exn)
| Exit (code : Z).
Arguments Ret {A} a.
Arguments Throw {A} e.
Arguments Exit {A} code.

Definition M (A : Type) : Type := state -> res A * state.

Definition ret {A} (a : A) : M A := fun st => (Ret a, st).

Definition bind {A B} (m : M A) (k : A -> M B) : M B :=
  fun st =>
    match m st with
    | (Ret a, st') => k a st'
    | (Throw e, st') => (Throw e, st')
    | (Exit c, st') => (Exit c, st')
    end.

Declare Scope js_scope.
Delimit Scope js_scope with js.
Notation "x <- m ;; k" := (bind m (fun x => k))
  (at level 61, m at next level, right associativity) : js_scope.
Notation "m ;; k" := (bind m (fun _ => k))
  (at level 61, right associativity) : js_scope.
Open Scope js_scope.

Definition throw {A} (e : exn) : M A := fun st => (Throw e, st).
Definition process_exit {A} (code : Z) : M A := fun st => (Exit code, st).
Definition emit (e : event) : M unit :=
  fun st => (Ret tt, {| err := err st; log := log st ++ [e] |}).
Definition set_err : M unit :=
  fun st => (Ret tt, {| err := true; log := log st |}).
Definition get_err : M bool := fun st => (Ret (err st), st).
Definition when (b : bool) (m : M unit) : M unit := if b then m else ret tt.

Definition console_error (m : message) : M unit := emit (ConsoleError m).
Definition console_warn (m : message) : M unit := emit (ConsoleWarn m).

Fixpoint all_strings (vs : list value) : option (list jsstring) :=
  match vs with
  | [] => Some []
  | VStr s :: vs' =>
      match all_strings vs' with
      | Some l => Some (s :: l)
      | None => None
      end
  | _ :: _ => None
  end.

(** [path.join]: a TypeError when a segment is not a string. *)
Definition path_join (h : Host) (segments : list value) : M jsstring :=
  match all_strings segments with
  | Some l => ret (join h l)
  | None => throw TypeError_path_argument
  end.

Definition fs_readFileSync (h : Host) (file : jsstring) : M jsstring :=
  match readFileSync h file with
  | Some content => ret content
  | None => throw (Error_readFileSync file)
  end.

Definition cp_execSync (h : Host) (cmd : jsstring) : M jsstring :=
  emit (EvExecSync cmd) ;;
  match execSync h cmd with
  | Some out => ret out
  | None => throw (Error_execSync cmd)
  end.

Definition cp_spawnSync (h : Host) (file : jsstring) (args : list jsstring)
           (cwd : option jsstring) : M spawn_result :=
  emit (EvSpawnSync file args cwd) ;;
  ret (spawnSync h file args cwd).

Definition cp_execFileSync (h : Host) (file : jsstring) (args : list jsstring)
  : M jsstring :=
  emit (EvExecFileSync file args) ;;
  match execFileSync h file args with
  | Some out => ret out
  | None => throw (Error_execFileSync file args)
  end.

(** Element [n] of the result of [exec]; indexing [null] throws. *)
Definition elem (m : option match_result) (n : nat) : M (option jsstring) :=
  match m with
  | Some r => ret (group r n)
  | None => throw TypeError_property_of_null
  end.

(** [process.env[name]] *)
Definition process_env (h : Host) (name : jsstring) : value :=
  match env h name with
  | Some s => VStr s
  | None => VUndefined
  end.

(** [new Set(l)] with [has]. *)
Definition set_has (l : list jsstring) (x : jsstring) : bool :=
  existsb (streq x) l.

(** ** The script *)

Definition LF : code_unit := 10%N.
Definition CR : code_unit := 13%N.
Definition dquote : code_unit := 34%N.
Definition cu (c x : code_unit) : bool := N.eqb x c.

(** [/^(\d+)\.(\d+)\.(\d+)/] *)
Definition version_re : regex :=
  seq [Bol; Group 1 (Plus digit); Chr (lit "."); Group 2 (Plus digit);
       Chr (lit "."); Group 3 (Plus digit)].

(** [/yarn[\w-.]*\.c?js$|yarnpkg$/] *)
Definition yarn_re : regex :=
  Alt (seq [Lit (str "yarn"); Star (one_of [word; lit "-"; lit "."]);
            Chr (lit "."); Opt (lit "c"); Lit (str "js"); Eol])
      (seq [Lit (str "yarnpkg"); Eol]).

(** The two patterns of [getHeaderInfo], one per key: blanks, the key,
    blanks, a double quote, group 1 capturing a greedy run of [.], a
    double quote, blanks, end of input.  There is no anchor at the
    start. *)
Definition key_re (key : jsstring) : regex :=
  seq [Star space; Lit key; Star space; Chr (cu dquote); Group 1 (Star any);
       Chr (cu dquote); Star space; Eol].
Definition disturl_re : regex := key_re (str "disturl").
Definition target_re : regex := key_re (str "target").

(** [/\r\n?/g] and [/\n/g] *)
Definition crlf_re : regex := Seq (Chr (cu CR)) (Opt (cu LF)).
Definition lf_re : regex := Chr (cu LF).

(** Lines 7-18: the node.js version gate. *)
Definition node_gate (h : Host) : M unit :=
  let nodeVersion := exec version_re (versions_node h) in
  g1 <- elem nodeVersion 1 ;;
  let majorNodeVersion := parseInt g1 in
  g2 <- elem nodeVersion 2 ;;
  let minorNodeVersion := parseInt g2 in
  g3 <- elem nodeVersion 3 ;;
  let patchNodeVersion := parseInt g3 in
  when (num_lt majorNodeVersion 16
        || (num_eq majorNodeVersion 16 && num_lt minorNodeVersion 14))
       (console_error MsgNodeVersion ;; set_err) ;;
  when (num_ge majorNodeVersion 17) (console_warn MsgNodeUntested).

(** Lines 23-38: the yarn version gate. *)
Definition yarn_gate (h : Host) : M unit :=
  out <- cp_execSync h (str "yarn -v") ;;
  let yarnVersion := trim out in
  let parsedYarnVersion := exec version_re yarnVersion in
  g1 <- elem parsedYarnVersion 1 ;;
  let majorYarnVersion := parseInt g1 in
  g2 <- elem parsedYarnVersion 2 ;;
  let minorYarnVersion := parseInt g2 in
  g3 <- elem parsedYarnVersion 3 ;;
  let patchYarnVersion := parseInt g3 in
  when (num_lt majorYarnVersion 1
        || (num_eq majorYarnVersion 1
            && (num_lt minorYarnVersion 10
                || (num_eq minorYarnVersion 10 && num_lt patchYarnVersion 1)))
        || num_ge majorYarnVersion 2)
       (console_error MsgYarnVersion ;; set_err).

(** Lines 40-43: [test] converts its argument to a string. *)
Definition invoker_check (h : Host) : M unit :=
  when (negb (test yarn_re (to_string (process_env h (str "npm_execpath")))))
       (console_error MsgUseYarn ;; set_err).

Definition enableSpectreMode (h : Host) (vsPath : value) : M unit :=
  auxPath <- path_join h [vsPath; VStr (str "VC/Auxiliary/Build/vcvarsall.bat")] ;;
  if negb (existsSync h auxPath) then
    console_error MsgVcvarsMissing
  else
    proc <- cp_spawnSync h auxPath [str "-vcvars_spectre_libs=spectre_mode"] None ;;
    match sp_status proc with
    | Some status =>
        when (negb (Z.eqb status 0)) (console_error (MsgVcvarsStatus status))
    | None => ret tt
    end.

(** The loop over [vsTypes]; [VNull] when it runs to its end. *)
Fixpoint vsTypes_loop (h : Host) (vsPath : jsstring) (vsTypes : list jsstring)
  : M value :=
  match vsTypes with
  | [] => ret VNull
  | vsType :: rest =>
      combined <- path_join h [VStr vsPath; VStr vsType] ;;
      if existsSync h combined then ret (VStr combined)
      else vsTypes_loop h vsPath rest
  end.

Definition findAvailableVSPathForVersion (h : Host) (programFilesPath : value)
           (version : jsstring) : M value :=
  if negb (truthy programFilesPath) then ret VNull
  else
    let vsPath := to_string programFilesPath
                  ++ str "/Microsoft Visual Studio/" ++ version in
    let vsTypes := [str "Enterprise"; str "Professional"; str "Community";
                    str "Preview"; str "BuildTools"] in
    vsTypes_loop h vsPath vsTypes.

(** The loop over the two Program Files roots; [Some v] when its body
    returned [v], [None] when it ran to its end. *)
Fixpoint roots_loop (h : Host) (version : jsstring) (roots : list value)
  : M (option value) :=
  match roots with
  | [] => ret None
  | path :: rest =>
      vsPath <- findAvailableVSPathForVersion h path version ;;
      if truthy vsPath then ret (Some vsPath)
      else roots_loop h version rest
  end.

(** The loop over [supportedVersions]. *)
Fixpoint versions_loop (h : Host) (supportedVersions : list jsstring)
  : M value :=
  match supportedVersions with
  | [] => ret VNull
  | version :: rest =>
      let vsPath := process_env h (str "vs" ++ version ++ str "_install") in
      if truthy vsPath && existsSync h (to_string vsPath) then ret vsPath
      else
        let programFiles86Path := process_env h (str "ProgramFiles(x86)") in
        let programFiles64Path := process_env h (str "ProgramFiles") in
        found <- roots_loop h version [programFiles64Path; programFiles86Path] ;;
        match found with
        | Some v => ret v
        | None => versions_loop h rest
        end
  end.

Definition findSupportedVisualStudioVersion (h : Host) : M value :=
  let supportedVersions := [str "2022"; str "2019"; str "2017"] in
  versions_loop h supportedVersions.

Record header_info : Type := {
  disturl : jsstring;
  target : jsstring
}.

(** One turn of the loop of [getHeaderInfo] on the pair of variables
    [disturl], [target] ([None] is [undefined]). *)
Definition header_line (vars : option jsstring * option jsstring)
           (line : jsstring) : option jsstring * option jsstring :=
  let (d, t) := vars in
  let d' :=
    match exec disturl_re line with
    | Some m => if Nat.leb 1 (match_length disturl_re) then group m 1 else d
    | None => d
    end in
  let t' :=
    match exec target_re line with
    | Some m => if Nat.leb 1 (match_length target_re) then group m 1 else t
    | None => t
    end in
  (d', t').

Definition getHeaderInfo (h : Host) (rcFile : jsstring)
  : M (option header_info) :=
  content <- fs_readFileSync h rcFile ;;
  let lines := split crlf_re content in
  match fold_left header_line lines (None, None) with
  | (Some d, Some t) => ret (Some {| disturl := d; target := t |})
  | _ => ret None
  end.

(** The two guarded [node-gyp install] calls at the end of
    [installHeaders]. *)
Definition install_if_missing (h : Host) (node_gyp : jsstring)
           (versions : list jsstring) (spec : option header_info) : M unit :=
  match spec with
  | Some i =>
      if negb (set_has versions (target i)) then
        cp_execFileSync h node_gyp
          [str "install"; str "--dist-url"; disturl i; target i] ;;
        ret tt
      else ret tt
  | None => ret tt
  end.

Definition installHeaders (h : Host) : M unit :=
  let yarn := str "yarn.cmd" in
  cwd <- path_join h [VStr (dirname h); VStr (str "gyp")] ;;
  yarnResult <- cp_spawnSync h yarn [str "install"] (Some cwd) ;;
  if sp_error yarnResult
     || negb (match sp_status yarnResult with
              | Some status => Z.eqb status 0
              | None => false
              end)
  then
    console_error MsgGypFailed ;;
    set_err
  else
    node_gyp <- path_join h [VStr (dirname h); VStr (str "gyp");
                             VStr (str "node_modules"); VStr (str ".bin");
                             VStr (str "node-gyp.cmd")] ;;
    result <- cp_execFileSync h node_gyp [str "list"] ;;
    let versions :=
      map (fun value => value)
          (filter (fun line => negb (startsWith line (str "gyp info")))
                  (split lf_re result)) in
    localPath <- path_join h [VStr (dirname h); VStr (str "..");
                              VStr (str ".."); VStr (str ".yarnrc")] ;;
    local <- getHeaderInfo h localPath ;;
    remotePath <- path_join h [VStr (dirname h); VStr (str "..");
                               VStr (str ".."); VStr (str "remote");
                               VStr (str ".yarnrc")] ;;
    remote <- getHeaderInfo h remotePath ;;
    install_if_missing h node_gyp versions local ;;
    install_if_missing h node_gyp versions remote.

(** Lines 45-55. *)
Definition windows_branch (h : Host) : M unit :=
  if streq (platform h) (str "win32") then
    vsPath <- findSupportedVisualStudioVersion h ;;
    when (negb (truthy vsPath)) (console_error MsgToolchain ;; set_err) ;;
    enableSpectreMode h vsPath ;;
    e <- get_err ;;
    when (negb e) (installHeaders h)
  else ret tt.

(** Lines 57-60. *)
Definition final_check : M unit :=
  e <- get_err ;;
  if e then console_error MsgBlank ;; process_exit 1 else ret tt.

Definition script (h : Host) : M unit :=
  node_gate h ;;
  yarn_gate h ;;
  invoker_check h ;;
  windows_branch h ;;
  final_check.

(** [let err = false;] *)
Definition initial : state := {| err := false; log := [] |}.

Definition run (h : Host) : res unit * state := script h initial.

(** The status the process ends with: an uncaught exception ends node.js
    with status 1. *)
Definition exit_status (r : res unit) : Z :=
  match r with
  | Ret _ => 0
  | Exit code => code
  | Throw _ => 1
  end.

(** ** The words of the specification, as definitions *)

(** A non-empty run of decimal digits. *)
Definition digits (s : jsstring) : Prop :=
  s <> [] /\ Forall (fun x => digit x = true) s.

(** The text does not go on with a digit. *)
Definition no_digit_head (s : jsstring) : Prop :=
  match s with
  | x :: _ => digit x = false
  | [] => True
  end.

(** The decimal value of a run of digits. *)
Definition decimal (s : jsstring) : N := digits_value 0 s.

(** Lexicographic order on version triples. *)
Definition triple_le (a b : N * N * N) : Prop :=
  let '(a1, a2, a3) := a in
  let '(b1, b2, b3) := b in
  (a1 < b1 \/ (a1 = b1 /\ (a2 < b2 \/ (a2 = b2 /\ a3 <= b3))))%N.

Definition triple_lt (a b : N * N * N) : Prop :=
  let '(a1, a2, a3) := a in
  let '(b1, b2, b3) := b in
  (a1 < b1 \/ (a1 = b1 /\ (a2 < b2 \/ (a2 = b2 /\ a3 < b3))))%N.

(** The characters a yarn script name may carry between [yarn] and its
    extension: word characters, hyphen and dot. *)
Definition name_char (x : code_unit) : bool := one_of [word; lit "-"; lit "."] x.

(** A path that ends in a yarn script name ([yarn], an optional suffix,
    then [.js] or [.cjs]) or in [yarnpkg]. *)
Definition yarn_script_path (s : jsstring) : Prop :=
  (exists pre suffix,
      Forall (fun x => name_char x = true) suffix /\
      (s = pre ++ str "yarn" ++ suffix ++ str ".js" \/
       s = pre ++ str "yarn" ++ suffix ++ str ".cjs"))
  \/ (exists pre, s = pre ++ str "yarnpkg").

(** The accepted versions of yarn: from 1.10.1 up to, not including,
    2.0.0. *)
Definition yarn_range (v : N * N * N) : Prop :=
  triple_le (1, 10, 1)%N v /\ triple_lt v (2, 0, 0)%N.

(** The decision of the node.js gate and of the yarn gate on parsed
    numbers. *)
Definition node_fails (major minor : option N) : bool :=
  num_lt major 16 || (num_eq major 16 && num_lt minor 14).

Definition yarn_fails (major minor patch : option N) : bool :=
  num_lt major 1
  || (num_eq major 1
      && (num_lt minor 10 || (num_eq minor 10 && num_lt patch 1)))
  || num_ge major 2.

(** What a pattern can consume, without the order in which the matcher
    tries it: [steps r i s i' s'] says that [r], started at position [i]
    in front of [s], can end at position [i'] in front of [s']. *)
Inductive steps : regex -> nat -> jsstring -> nat -> jsstring -> Prop :=
| steps_eps i s : steps Eps i s i s
| steps_chr p x i s : p x = true -> steps (Chr p) i (x :: s) (S i) s
| steps_lit l i s : steps (Lit l) i (l ++ s) (i + List.length l) s
| steps_star_stop p i s : steps (Star p) i s i s
| steps_star_more p x i s i' s' :
    p x = true -> steps (Star p) (S i) s i' s' -> steps (Star p) i (x :: s) i' s'
| steps_plus p x i s i' s' :
    p x = true -> steps (Star p) (S i) s i' s' -> steps (Plus p) i (x :: s) i' s'
| steps_opt_skip p i s : steps (Opt p) i s i s
| steps_opt_take p x i s : p x = true -> steps (Opt p) i (x :: s) (S i) s
| steps_seq r1 r2 i s i1 s1 i2 s2 :
    steps r1 i s i1 s1 -> steps r2 i1 s1 i2 s2 -> steps (Seq r1 r2) i s i2 s2
| steps_alt_l r1 r2 i s i' s' : steps r1 i s i' s' -> steps (Alt r1 r2) i s i' s'
| steps_alt_r r1 r2 i s i' s' : steps r2 i s i' s' -> steps (Alt r1 r2) i s i' s'
| steps_group n r i s i' s' : steps r i s i' s' -> steps (Group n r) i s i' s'
| steps_bol s : steps Bol 0 s 0 s
| steps_eol i : steps Eol i [] i [].

(** The text does not go on with a code unit of the class. *)
Definition stops (p : code_unit -> bool) (s : jsstring) : Prop :=
  match s with
  | x :: _ => p x = false
  | [] => True
  end.

(** ** Toolchain discovery, in the words of the specification *)

(** The candidate paths in the order of preference, and the first of
    them that exists. *)
Definition editions : list jsstring :=
  [str "Enterprise"; str "Professional"; str "Community"; str "Preview";
   str "BuildTools"].

(** An environment variable counts as set when it holds a non-empty
    string. *)
Definition env_set (h : Host) (name : jsstring) : list jsstring :=
  match env h name with
  | Some (x :: p) => [x :: p]
  | _ => []
  end.

Definition edition_path (h : Host) (root version edition : jsstring) : jsstring :=
  join h [root ++ str "/Microsoft Visual Studio/" ++ version; edition].

Definition version_candidates (h : Host) (version : jsstring) : list jsstring :=
  env_set h (str "vs" ++ version ++ str "_install")
  ++ flat_map (fun root => map (edition_path h root version) editions)
              (env_set h (str "ProgramFiles") ++ env_set h (str "ProgramFiles(x86)")).

Definition candidates (h : Host) : list jsstring :=
  flat_map (version_candidates h) [str "2022"; str "2019"; str "2017"].

Definition first_existing (h : Host) (paths : list jsstring) : value :=
  match find (existsSync h) paths with
  | Some p => VStr p
  | None => VNull
  end.

(** The setup script of a toolchain and the argument it is run with. *)
Definition vcvarsall (h : Host) (vsPath : jsstring) : jsstring :=
  join h [vsPath; str "VC/Auxiliary/Build/vcvarsall.bat"].

Definition spectre_arg : jsstring := str "-vcvars_spectre_libs=spectre_mode".

(** The events that start a process. *)
Definition starts_process (e : event) : bool :=
  match e with
  | EvSpawnSync _ _ _ | EvExecFileSync _ _ => true
  | _ => false
  end.

(** ** Header specs, in the words of the specification *)

(** What [getHeaderInfo] makes of the text of a file. *)
Definition parse_header (content : jsstring) : option header_info :=
  match fold_left header_line (split crlf_re content) (None, None) with
  | (Some d, Some t) => Some {| disturl := d; target := t |}
  | _ => None
  end.

(** A line that carries [key] with a quoted value: the key, blanks, the
    value between double quotes, and only blanks after it. *)
Definition key_line (key line : jsstring) : Prop :=
  exists pre ws1 v ws2,
    line = pre ++ key ++ ws1 ++ [dquote] ++ v ++ [dquote] ++ ws2
    /\ Forall (fun x => space x = true) ws1
    /\ Forall (fun x => any x = true) v
    /\ Forall (fun x => space x = true) ws2.

(** No line of the file, as [getHeaderInfo] cuts it, carries [key]. *)
Definition key_absent (key content : jsstring) : Prop :=
  forall line, In line (split crlf_re content) -> ~ key_line key line.

(** A file whose lines all end in CR LF. *)
Definition crlf_file (lines : list jsstring) : jsstring :=
  List.concat (map (fun l => l ++ [CR; LF]) lines).

(** A line that is nothing but [key] and the quoted [value]: blanks, the
    key, blanks, the value between double quotes, blanks.  The value has
    no line terminator in it. *)
Definition plain_key_line (key value line : jsstring) : Prop :=
  exists ws0 ws1 ws2,
    line = ws0 ++ key ++ ws1 ++ [dquote] ++ value ++ [dquote] ++ ws2
    /\ Forall (fun x => space x = true) ws0
    /\ Forall (fun x => space x = true) ws1
    /\ Forall (fun x => space x = true) ws2
    /\ Forall (fun x => any x = true) value.

(** Lines proper: no CR and no LF inside them. *)
Definition no_line_breaks (lines : list jsstring) : Prop :=
  Forall (Forall (fun x => x <> CR /\ x <> LF)) lines.

(** The paths [installHeaders] builds. *)
Definition gyp_cwd (h : Host) : jsstring := join h [dirname h; str "gyp"].
Definition node_gyp_cmd (h : Host) : jsstring :=
  join h [dirname h; str "gyp"; str "node_modules"; str ".bin"; str "node-gyp.cmd"].
Definition local_rc (h : Host) : jsstring :=
  join h [dirname h; str ".."; str ".."; str ".yarnrc"].
Definition remote_rc (h : Host) : jsstring :=
  join h [dirname h; str ".."; str ".."; str "remote"; str ".yarnrc"].

(** The installed-version set read off the output of [node-gyp list]. *)
Definition installed_versions (result : jsstring) : list jsstring :=
  filter (fun line => negb (startsWith line (str "gyp info"))) (split lf_re result).

Definition install_args (i : header_info) : list jsstring :=
  [str "install"; str "--dist-url"; disturl i; target i].

(** The header spec, when it is present and its target is not
    installed. *)
Definition wanted (versions : list jsstring) (spec : option header_info)
  : list header_info :=
  match spec with
  | Some i => if set_has versions (target i) then [] else [i]
  | None => []
  end.

(** Whether the install invocation for a spec throws. *)
Definition install_throws (h : Host) (i : header_info) : bool :=
  match execFileSync h (node_gyp_cmd h) (install_args i) with
  | Some _ => false
  | None => true
  end.

(** The state [installHeaders] is in once yarn has installed node-gyp
    and the installed versions have been listed. *)
Definition listed (h : Host) (st : state) : state :=
  {| err := err st;
     log := log st ++ [EvSpawnSync (str "yarn.cmd") [str "install"] (Some (gyp_cwd h));
                       EvExecFileSync (node_gyp_cmd h) [str "list"]] |}.

(** The install invocation for a header spec. *)
Definition install_event (h : Host) (i : header_info) : event :=
  EvExecFileSync (node_gyp_cmd h) (install_args i).

(** ** Sample hosts

    A family of concrete hosts to run the script on: a Windows machine
    with node.js [node], yarn 1.22.19, the environment [envs], the
    existing paths [present], the readable files [files], and
    [node-gyp] invocations that fail when their arguments are in
    [failing]. *)

Fixpoint assoc {A} (l : list (jsstring * A)) (k : jsstring) : option A :=
  match l with
  | [] => None
  | (k', v) :: l' => if streq k k' then Some v else assoc l' k
  end.

Fixpoint glue (l : list jsstring) : jsstring :=
  match l with
  | [] => []
  | [x] => x
  | x :: l' => x ++ str "\" ++ glue l'
  end.

(** A stand-in for [path.join] of Windows: empty segments are dropped,
    the others are joined with backslashes, slashes become backslashes,
    and the empty result is written [.]. *)
Definition sample_join (l : list jsstring) : jsstring :=
  match map (fun x => if N.eqb x 47 then 92%N else x)
            (glue (filter (fun x => negb (streq x [])) l)) with
  | [] => str "."
  | x :: r => x :: r
  end.

Fixpoint args_eq (a b : list jsstring) : bool :=
  match a, b with
  | [], [] => true
  | x :: a', y :: b' => streq x y && args_eq a' b'
  | _, _ => false
  end.

Definition sample_host (node : jsstring) (envs : list (jsstring * jsstring))
           (present : list jsstring) (files : list (jsstring * jsstring))
           (failing : list (list jsstring)) : Host := {|
  versions_node := node;
  platform := str "win32";
  env := assoc envs;
  dirname := str "C:\vscode\build\npm";
  join := sample_join;
  existsSync := set_has present;
  readFileSync := assoc files;
  execSync := fun cmd =>
    if streq cmd (str "yarn -v") then Some (str "1.22.19" ++ [LF]) else None;
  spawnSync := fun _ _ _ => {| sp_error := false; sp_status := Some 0%Z |};
  execFileSync := fun _ args =>
    if existsb (args_eq args) failing then None
    else if args_eq args [str "list"]
         then Some (str "gyp info it worked" ++ [LF] ++ str "10.0.0" ++ [LF])
         else Some []
|}.

Definition quoted (s : jsstring) : jsstring := dquote :: s ++ [dquote].

Definition yarn_env : list (jsstring * jsstring) :=
  [(str "npm_execpath", str "C:\Program Files\nodejs\node_modules\yarn\bin\yarn.js");
   (str "ProgramFiles", str "C:\Program Files");
   (str "ProgramFiles(x86)", str "C:\Program Files (x86)")].

(** A machine on which every check passes up to toolchain discovery. *)
Definition host_yarn : Host := sample_host (str "16.14.2") yarn_env [] [] [].

(** The same machine with [npm_execpath] unset. *)
Definition host_no_execpath : Host := sample_host (str "16.14.2") [] [] [] [].

(** A machine with Visual Studio 2022 Enterprise and 2019 Community. *)
Definition host_vs : Host :=
  sample_host (str "16.14.2") yarn_env
    [str "C:\Program Files\Microsoft Visual Studio\2022\Enterprise";
     str "C:\Program Files (x86)\Microsoft Visual Studio\2019\Community"]
    [] [].

(** Two header files in the style of the repository, cut into lines by
    [eol]. *)
Definition rc_text (eol url tgt : jsstring) : jsstring :=
  str "disturl " ++ quoted url ++ eol
  ++ str "target " ++ quoted tgt ++ eol
  ++ str "runtime " ++ quoted (str "electron") ++ eol.

Definition sample_local_rc : jsstring :=
  sample_join [str "C:\vscode\build\npm"; str ".."; str ".."; str ".yarnrc"].
Definition sample_remote_rc : jsstring :=
  sample_join [str "C:\vscode\build\npm"; str ".."; str ".."; str "remote";
               str ".yarnrc"].

Definition vs_present : list jsstring :=
  [str "C:\Program Files\Microsoft Visual Studio\2022\Enterprise";
   str "C:\Program Files\Microsoft Visual Studio\2022\Enterprise\VC\Auxiliary\Build\vcvarsall.bat"].

(** A machine with a toolchain, the local header spec already installed
    (10.0.0) and the remote one (12.0.0) not. *)
Definition host_headers : Host :=
  sample_host (str "16.14.2") yarn_env vs_present
    [(sample_local_rc, rc_text [CR; LF] (str "https://example/dist") (str "10.0.0"));
     (sample_remote_rc, rc_text [CR; LF] (str "https://example/remote") (str "12.0.0"))]
    [].

(** The same machine without the local header file. *)
Definition host_missing_rc : Host :=
  sample_host (str "16.14.2") yarn_env vs_present
    [(sample_remote_rc, rc_text [CR; LF] (str "https://example/remote") (str "12.0.0"))]
    [].

(** A machine on which both header specs are to be installed and the
    local install fails. *)
Definition host_local_fails : Host :=
  sample_host (str "16.14.2") yarn_env vs_present
    [(sample_local_rc, rc_text [CR; LF] (str "https://example/dist") (str "11.0.0"));
     (sample_remote_rc, rc_text [CR; LF] (str "https://example/remote") (str "12.0.0"))]
    [[str "install"; str "--dist-url"; str "https://example/dist"; str "11.0.0"]].

(** A machine that answers every read with one text. *)
Definition host_reading (content : jsstring) : Host := {|
  versions_node := str "16.14.2";
  platform := str "win32";
  env := fun _ => None;
  dirname := str "C:\vscode\build\npm";
  join := sample_join;
  existsSync := fun _ => false;
  readFileSync := fun _ => Some content;
  execSync := fun _ => None;
  spawnSync := fun _ _ _ => {| sp_error := false; sp_status := Some 0%Z |};
  execFileSync := fun _ _ => None
|}.

(** A machine whose local header file names no [disturl] and no
    [target]. *)
Definition host_no_local_spec : Host :=
  sample_host (str "16.14.2") yarn_env vs_present
    [(sample_local_rc, str "runtime " ++ quoted (str "electron") ++ [CR; LF]);
     (sample_remote_rc, rc_text [CR; LF] (str "https://example/remote") (str "12.0.0"))]
    [].


Unset Implicit Arguments.

(** ** What a run may do *)

(** The lines the script may print and the processes it may start: the
    version query of yarn, the setup script of a toolchain that exists
    (the script itself existing too) with the Spectre argument, the yarn
    install in the gyp directory, and node-gyp listing or installing a
    header spec. *)
Definition allowed_event (h : Host) (e : event) : Prop :=
  match e with
  | ConsoleError _ | ConsoleWarn _ => True
  | EvExecSync cmd => cmd = str "yarn -v"
  | EvSpawnSync file args cwd =>
      (file = str "yarn.cmd" /\ args = [str "install"] /\ cwd = Some (gyp_cwd h))
      \/ (exists vsPath,
             file = vcvarsall h vsPath /\ args = [spectre_arg] /\ cwd = None
             /\ existsSync h vsPath = true /\ existsSync h file = true)
  | EvExecFileSync file args =>
      file = node_gyp_cmd h /\ (args = [str "list"] \/ exists i, args = install_args i)
  end.

(** From [st] to [st'] the error flag has not been cleared and the log
    has only gained allowed events. *)
Definition grows (h : Host) (st st' : state) : Prop :=
  (err st = true -> err st' = true)
  /\ exists l, log st' = log st ++ l /\ Forall (allowed_event h) l.

(** A computation that never calls [process.exit], whose every run
    [grows] the state, and whose result satisfies [post]. *)
Definition safe {A} (h : Host) (m : M A) (post : A -> Prop) : Prop :=
  forall st,
    match m st with
    | (Ret a, st') => grows h st st' /\ post a
    | (Throw _, st') => grows h st st'
    | (Exit _, _) => False
    end.

(** What discovery may return: [null], or a non-empty path that exists. *)
Definition existing_or_null (h : Host) (v : value) : Prop :=
  v = VNull \/ exists p, v = VStr p /\ p <> [] /\ existsSync h p = true.

(** How a whole run may end: normally only with the error flag clear,
    through [process.exit] only with status 1 and the flag set. *)
Definition ends_well (h : Host) (st : state) (out : res unit * state) : Prop :=
  grows h st (snd out)
  /\ (fst out = Ret tt -> err (snd out) = false)
  /\ (forall c, fst out = Exit c -> c = 1%Z /\ err (snd out) = true).

(** A text that starts with [major.minor.patch]. *)
Definition version_prefixed (s : jsstring) : Prop :=
  exists a b c rest,
    digits a /\ digits b /\ digits c
    /\ s = a ++ str "." ++ b ++ str "." ++ c ++ rest.

(** What the three gates print and start, given their four decisions:
    node.js too old, node.js untested, yarn out of range, not invoked
    through yarn. *)
Definition gate_events (node_old node_new yarn_bad not_yarn : bool) : list event :=
  (if node_old then [ConsoleError MsgNodeVersion] else [])
  ++ (if node_new then [ConsoleWarn MsgNodeUntested] else [])
  ++ [EvExecSync (str "yarn -v")]
  ++ (if yarn_bad then [ConsoleError MsgYarnVersion] else [])
  ++ (if not_yarn then [ConsoleError MsgUseYarn] else []).

(** What [enableSpectreMode] prints and starts for a toolchain path. *)
Definition spectre_events (h : Host) (vsPath : jsstring) : list event :=
  if existsSync h (vcvarsall h vsPath) then
    EvSpawnSync (vcvarsall h vsPath) [spectre_arg] None ::
    match sp_status (spawnSync h (vcvarsall h vsPath) [spectre_arg] None) with
    | Some status =>
        if Z.eqb status 0 then [] else [ConsoleError (MsgVcvarsStatus status)]
    | None => []
    end
  else [ConsoleError MsgVcvarsMissing].

(** A machine that is not Windows, with an old node.js, a yarn that is
    too new and an install started through npm. *)
Definition host_linux_all_wrong : Host := {|
  versions_node := str "14.17.0";
  platform := str "linux";
  env := assoc [(str "npm_execpath", str "/usr/lib/node_modules/npm/bin/npm-cli.js")];
  dirname := str "/home/dev/vscode/build/npm";
  join := sample_join;
  existsSync := fun _ => false;
  readFileSync := fun _ => None;
  execSync := fun _ => Some (str "2.4.3" ++ [LF]);
  spawnSync := fun _ _ _ => {| sp_error := true; sp_status := None |};
  execFileSync := fun _ _ => None
|}.

(** A Windows machine with a toolchain, started through npm. *)
Definition host_vs_npm : Host :=
  sample_host (str "16.14.2")
    [(str "npm_execpath", str "C:\Program Files\nodejs\node_modules\npm\bin\npm-cli.js");
     (str "ProgramFiles", str "C:\Program Files")]
    vs_present [] [].

(** Whether the yarn install of node-gyp counts as failed: [error] is
    set, or [status] is not the number 0 (a [null] status included). *)
Definition yarn_install_failed (r : spawn_result) : bool :=
  sp_error r
  || negb (match sp_status r with Some status => Z.eqb status 0 | None => false end).

(** A machine whose two header files name the same target, which is
    not installed. *)
Definition host_same_target : Host :=
  sample_host (str "16.14.2") yarn_env vs_present
    [(sample_local_rc, rc_text [CR; LF] (str "https://example/dist") (str "12.0.0"));
     (sample_remote_rc, rc_text [CR; LF] (str "https://example/remote") (str "12.0.0"))]
    [].

(** The line gives [key] the quoted value [v]. *)
Definition quoted_value (key v line : jsstring) : Prop :=
  exists pre ws1 ws2,
    line = pre ++ key ++ ws1 ++ [dquote] ++ v ++ [dquote] ++ ws2
    /\ Forall (fun x => space x = true) ws1
    /\ Forall (fun x => any x = true) v
    /\ Forall (fun x => space x = true) ws2.

(** [Array.prototype.join] *)
Fixpoint join_with (sep : jsstring) (l : list jsstring) : jsstring :=
  match l with
  | [] => []
  | [x] => x
  | x :: l' => x ++ sep ++ join_with sep l'
  end.

(** A machine whose node.js reports a version with a letter in front. *)
Definition host_v_prefix : Host := sample_host (str "v16.14.2") yarn_env [] [] [].

(** A state in which a check has already failed. *)
Definition failed_state : state := {| err := true; log := [] |}.

(** A machine with 2022 BuildTools under [ProgramFiles], 2022 Enterprise
    under [ProgramFiles(x86)] and 2019 Community. *)
Definition host_buildtools_first : Host :=
  sample_host (str "16.14.2") yarn_env
    [str "C:\Program Files\Microsoft Visual Studio\2022\BuildTools";
     str "C:\Program Files (x86)\Microsoft Visual Studio\2022\Enterprise";
     str "C:\Program Files (x86)\Microsoft Visual Studio\2019\Community"]
    [] [].

(** A machine with 2022 Enterprise, 2019 Community and an existing
    [vs2022_install] override. *)
Definition host_vs_override : Host :=
  sample_host (str "16.14.2")
    ((str "vs2022_install", str "D:\VS2022") :: yarn_env)
    [str "D:\VS2022";
     str "C:\Program Files\Microsoft Visual Studio\2022\Enterprise";
     str "C:\Program Files (x86)\Microsoft Visual Studio\2019\Community"]
    [] [].

Unset Implicit Arguments.

(** * Properties *)

(** ** The matcher against [steps] *)

Lemma strip_prefix_app (l s : jsstring) : strip_prefix l (l ++ s) = Some s.
Proof.
  induction l as [|y l IH]; cbn; [reflexivity|].
  now rewrite N.eqb_refl.
Qed.

Lemma strip_prefix_inv (l s s' : jsstring) :
  strip_prefix l s = Some s' -> s = l ++ s'.
Proof.
  revert s; induction l as [|y l IH]; intros s H; cbn in H.
  - now inversion H.
  - destruct s as [|x s]; [discriminate|].
    destruct (N.eqb_spec x y); [|discriminate].
    subst; cbn; f_equal; auto.
Qed.

Section MatcherTheory.
Variable R : Type.
Implicit Types (k : cont R) (c : caps).

Lemma star_sound p : forall s i c k x,
  star p i s c k = Some x ->
  exists i' s', steps (Star p) i s i' s' /\ k i' s' c = Some x.
Proof.
  induction s as [|y s IH]; intros i c k x H; cbn in H.
  - exists i, []; split; [constructor|assumption].
  - destruct (p y) eqn:Py.
    + destruct (star p (S i) s c k) eqn:E.
      * inversion H; subst.
        destruct (IH _ _ _ _ E) as (i' & s' & Hs & Hk).
        exists i', s'; split; [now apply steps_star_more|assumption].
      * exists i, (y :: s); split; [constructor|assumption].
    + exists i, (y :: s); split; [constructor|assumption].
Qed.

Lemma star_complete p i s i' s' :
  steps (Star p) i s i' s' ->
  forall c k, k i' s' c <> None -> star p i s c k <> None.
Proof.
  intros H; remember (Star p) as r eqn:Er; revert Er.
  induction H; intros Er c k Hk; inversion Er; subst.
  - destruct s as [|y s]; cbn; [assumption|].
    destruct (p y); [|assumption].
    destruct (star p (S i) s c k); [discriminate|assumption].
  - cbn; rewrite H.
    specialize (IHsteps eq_refl c k Hk).
    destruct (star p (S i) s c k); [discriminate|contradiction].
Qed.

(** Whatever the matcher returns comes from the continuation, run after
    a way [steps] allows. *)
Theorem mt_sound : forall r i s c k x,
  mt r i s c k = Some x ->
  exists i' s' c', steps r i s i' s' /\ k i' s' c' = Some x.
Proof.
  induction r; intros i s c k x H; cbn in H.
  - exists i, s, c; split; [constructor|assumption].
  - destruct s as [|y s]; [discriminate|].
    destruct (p y) eqn:Py; [|discriminate].
    exists (S i), s, c; split; [now constructor|assumption].
  - destruct (strip_prefix l s) as [s'|] eqn:E; [|discriminate].
    apply strip_prefix_inv in E; subst.
    exists (i + List.length l), s', c; split; [constructor|assumption].
  - destruct (star_sound _ _ _ _ _ _ H) as (i' & s' & Hs & Hk).
    exists i', s', c; auto.
  - destruct s as [|y s]; [discriminate|].
    destruct (p y) eqn:Py; [|discriminate].
    destruct (star_sound _ _ _ _ _ _ H) as (i' & s' & Hs & Hk).
    exists i', s', c; split; [now apply steps_plus|assumption].
  - destruct s as [|y s].
    + exists i, [], c; split; [constructor|assumption].
    + destruct (p y) eqn:Py.
      * destruct (k (S i) s c) eqn:E.
        -- inversion H; subst.
           exists (S i), s, c; split; [now constructor|assumption].
        -- exists i, (y :: s), c; split; [constructor|assumption].
      * exists i, (y :: s), c; split; [constructor|assumption].
  - destruct (IHr1 _ _ _ _ _ H) as (i1 & s1 & c1 & H1 & K1).
    destruct (IHr2 _ _ _ _ _ K1) as (i2 & s2 & c2 & H2 & K2).
    exists i2, s2, c2; split; [eapply steps_seq; eauto|assumption].
  - destruct (mt r1 i s c k) eqn:E.
    + inversion H; subst.
      destruct (IHr1 _ _ _ _ _ E) as (i' & s' & c' & H1 & K1).
      exists i', s', c'; split; [now apply steps_alt_l|assumption].
    + destruct (IHr2 _ _ _ _ _ H) as (i' & s' & c' & H1 & K1).
      exists i', s', c'; split; [now apply steps_alt_r|assumption].
  - destruct (IHr _ _ _ _ _ H) as (i' & s' & c' & H1 & K1).
    exists i', s', ((n, firstn (i' - i) s) :: c'); split;
      [now constructor|assumption].
  - destruct (Nat.eqb_spec i 0); [|discriminate].
    subst; exists 0, s, c; split; [constructor|assumption].
  - destruct s; [|discriminate].
    exists i, [], c; split; [constructor|assumption].
Qed.

(** Every way [steps] allows is found, provided the continuation
    accepts it whatever the captures. *)
Theorem mt_complete r i s i' s' :
  steps r i s i' s' ->
  forall c k, (forall c', k i' s' c' <> None) -> mt r i s c k <> None.
Proof.
  induction 1; intros c k Hk.
  - apply Hk.
  - cbn; rewrite H; apply Hk.
  - cbn; rewrite strip_prefix_app; apply Hk.
  - change (star p i s c k <> None).
    eapply star_complete; [constructor|apply Hk].
  - change (star p i (x :: s) c k <> None).
    eapply star_complete; [eapply steps_star_more; eauto|apply Hk].
  - cbn [mt]; rewrite H; eapply star_complete; [eassumption|apply Hk].
  - cbn; destruct s as [|y s]; [apply Hk|].
    destruct (p y); [|apply Hk].
    destruct (k (S i) s c); [discriminate|apply Hk].
  - cbn; rewrite H. specialize (Hk c).
    destruct (k (S i) s c); [discriminate|contradiction].
  - cbn [mt]; apply IHsteps1; intros c1. apply IHsteps2; assumption.
  - cbn [mt]; specialize (IHsteps c k Hk).
    destruct (mt r1 i s c k); [discriminate|contradiction].
  - cbn [mt]; destruct (mt r1 i s c k); [discriminate|].
    apply IHsteps; assumption.
  - cbn [mt]; apply IHsteps; intros c'; apply Hk.
  - apply Hk.
  - apply Hk.
Qed.
End MatcherTheory.

(** ** Leftmost search and [test] *)

Lemma steps_span r i s i' s' :
  steps r i s i' s' -> exists m, s = m ++ s' /\ i' = i + List.length m.
Proof.
  induction 1.
  - exists []; cbn; split; [reflexivity|lia].
  - exists [x]; cbn; split; [reflexivity|lia].
  - exists l; split; reflexivity.
  - exists []; cbn; split; [reflexivity|lia].
  - destruct IHsteps as (m & -> & ->). exists (x :: m); cbn; split; [reflexivity|lia].
  - destruct IHsteps as (m & -> & ->). exists (x :: m); cbn; split; [reflexivity|lia].
  - exists []; cbn; split; [reflexivity|lia].
  - exists [x]; cbn; split; [reflexivity|lia].
  - destruct IHsteps1 as (m1 & -> & ->), IHsteps2 as (m2 & -> & ->).
    exists (m1 ++ m2); rewrite length_app, app_assoc; split; [reflexivity|lia].
  - assumption.
  - assumption.
  - assumption.
  - exists []; split; reflexivity.
  - exists []; cbn; split; [reflexivity|lia].
Qed.

Lemma steps_star_run p a : forall i s,
  Forall (fun x => p x = true) a ->
  steps (Star p) i (a ++ s) (i + List.length a) s.
Proof.
  induction a as [|x a IH]; intros i s Ha; cbn.
  - rewrite Nat.add_0_r; constructor.
  - inversion Ha; subst.
    apply steps_star_more; [assumption|].
    replace (i + S (List.length a)) with (S i + List.length a) by lia.
    now apply IH.
Qed.

Lemma steps_star_inv p i s i' s' :
  steps (Star p) i s i' s' ->
  exists a, Forall (fun x => p x = true) a /\ s = a ++ s' /\ i' = i + List.length a.
Proof.
  intros H; remember (Star p) as r eqn:Er; revert Er.
  induction H; intros Er; inversion Er; subst.
  - exists []; cbn; repeat split; [constructor|lia].
  - destruct (IHsteps eq_refl) as (a & Ha & -> & ->).
    exists (x :: a); cbn; repeat split; [now constructor|lia].
Qed.

Lemma search_sound r : forall s i m,
  search r i s = Some m ->
  exists pre rest i' s', s = pre ++ rest /\ steps r (i + List.length pre) rest i' s'.
Proof.
  induction s as [|x s IH]; intros i m H; cbn in H.
  - destruct (match_at r i []) eqn:E; [|discriminate].
    apply mt_sound in E; destruct E as (i' & s' & _ & Hs & _).
    exists [], [], i', s'; cbn; rewrite Nat.add_0_r; auto.
  - destruct (match_at r i (x :: s)) eqn:E.
    + apply mt_sound in E; destruct E as (i' & s' & _ & Hs & _).
      exists [], (x :: s), i', s'; cbn; rewrite Nat.add_0_r; auto.
    + destruct (IH _ _ H) as (pre & rest & i' & s' & -> & Hs).
      exists (x :: pre), rest, i', s'; cbn; split; [reflexivity|].
      now replace (i + S (List.length pre)) with (S i + List.length pre) by lia.
Qed.

Lemma search_complete r : forall pre rest i i' s',
  steps r (i + List.length pre) rest i' s' ->
  search r i (pre ++ rest) <> None.
Proof.
  induction pre as [|x pre IH]; intros rest i i' s' Hs.
  - cbn in Hs; rewrite Nat.add_0_r in Hs; cbn [app].
    assert (M : match_at r i rest <> None)
      by (eapply mt_complete; [eassumption|discriminate]).
    destruct rest; cbn; destruct (match_at r i _); congruence.
  - cbn [app search].
    destruct (match_at r i (x :: pre ++ rest)); [discriminate|].
    apply (IH rest (S i) i' s').
    now replace (S i + List.length pre) with (i + List.length (x :: pre)) by (cbn; lia).
Qed.

Theorem test_steps r s :
  test r s = true <->
  exists pre rest i' s', s = pre ++ rest /\ steps r (List.length pre) rest i' s'.
Proof.
  unfold test, exec; split.
  - destruct (search r 0 s) eqn:E; [|discriminate]; intros _.
    now apply search_sound in E.
  - intros (pre & rest & i' & s' & -> & Hs).
    pose proof (@search_complete r pre rest 0 i' s' Hs).
    destruct (search r 0 (pre ++ rest)); congruence.
Qed.

(** ** Taking [steps] apart *)

Lemma steps_eol_inv i s i' s' : steps Eol i s i' s' -> s = [] /\ s' = [].
Proof. inversion 1; auto. Qed.

Lemma steps_lit_inv l i s i' s' : steps (Lit l) i s i' s' -> s = l ++ s'.
Proof. inversion 1; auto. Qed.

Lemma steps_chr_inv p i s i' s' :
  steps (Chr p) i s i' s' -> exists x, p x = true /\ s = x :: s'.
Proof. inversion 1; subst; eauto. Qed.

Lemma steps_opt_inv p i s i' s' :
  steps (Opt p) i s i' s' -> s = s' \/ exists x, p x = true /\ s = x :: s'.
Proof. inversion 1; subst; eauto. Qed.

Lemma steps_seq_inv r1 r2 i s i' s' :
  steps (Seq r1 r2) i s i' s' ->
  exists i1 s1, steps r1 i s i1 s1 /\ steps r2 i1 s1 i' s'.
Proof. inversion 1; subst; eauto. Qed.

Lemma steps_alt_inv r1 r2 i s i' s' :
  steps (Alt r1 r2) i s i' s' -> steps r1 i s i' s' \/ steps r2 i s i' s'.
Proof. inversion 1; subst; auto. Qed.

Lemma steps_group_inv n r i s i' s' :
  steps (Group n r) i s i' s' -> steps r i s i' s'.
Proof. inversion 1; subst; auto. Qed.

Lemma lit_inv c y x : str c = [y] -> lit c x = true -> x = y.
Proof. unfold lit; intros ->; now intros H%N.eqb_eq. Qed.

Lemma yarn_re_sound i s i' s' :
  steps yarn_re i s i' s' ->
  (exists suffix, Forall (fun x => name_char x = true) suffix /\
     (s = str "yarn" ++ suffix ++ str ".js" \/ s = str "yarn" ++ suffix ++ str ".cjs"))
  \/ s = str "yarnpkg".
Proof.
  unfold yarn_re; cbn [seq]; intros [H|H]%steps_alt_inv.
  - left.
    apply steps_seq_inv in H; destruct H as (i1 & s1 & ->%steps_lit_inv & H).
    apply steps_seq_inv in H; destruct H as (i2 & s2 & Hstar & H).
    apply steps_star_inv in Hstar; destruct Hstar as (a & Ha & -> & _).
    apply steps_seq_inv in H; destruct H as (i3 & s3 & Hdot & H).
    apply steps_chr_inv in Hdot; destruct Hdot as (d & Hd & ->).
    apply (@lit_inv "." 46%N d eq_refl) in Hd; subst d.
    apply steps_seq_inv in H; destruct H as (i4 & s4 & Hopt & H).
    apply steps_seq_inv in H; destruct H as (i5 & s5 & ->%steps_lit_inv & H).
    apply steps_eol_inv in H; destruct H as [-> _].
    exists a; split; [exact Ha|].
    apply steps_opt_inv in Hopt; destruct Hopt as [->|(x & Hx & ->)].
    + left; reflexivity.
    + apply (@lit_inv "c" 99%N x eq_refl) in Hx; subst x. right; reflexivity.
  - right.
    apply steps_seq_inv in H; destruct H as (i1 & s1 & ->%steps_lit_inv & H).
    apply steps_eol_inv in H; destruct H as [-> _]; reflexivity.
Qed.

Lemma yarn_re_js suffix i :
  Forall (fun x => name_char x = true) suffix ->
  exists i', steps yarn_re i (str "yarn" ++ suffix ++ str ".js") i' [].
Proof.
  intros Ha; eexists; unfold yarn_re; cbn [seq].
  apply steps_alt_l.
  eapply steps_seq; [apply steps_lit|].
  eapply steps_seq; [apply steps_star_run; exact Ha|].
  eapply steps_seq; [apply (steps_chr (lit ".")); reflexivity|].
  eapply steps_seq; [apply steps_opt_skip|].
  eapply steps_seq; [apply (steps_lit (str "js") _ [])|apply steps_eol].
Qed.

Lemma yarn_re_cjs suffix i :
  Forall (fun x => name_char x = true) suffix ->
  exists i', steps yarn_re i (str "yarn" ++ suffix ++ str ".cjs") i' [].
Proof.
  intros Ha; eexists; unfold yarn_re; cbn [seq].
  apply steps_alt_l.
  eapply steps_seq; [apply steps_lit|].
  eapply steps_seq; [apply steps_star_run; exact Ha|].
  eapply steps_seq; [apply (steps_chr (lit ".")); reflexivity|].
  eapply steps_seq; [apply (steps_opt_take (lit "c")); reflexivity|].
  eapply steps_seq; [apply (steps_lit (str "js") _ [])|apply steps_eol].
Qed.

Lemma yarn_re_pkg i : exists i', steps yarn_re i (str "yarnpkg") i' [].
Proof.
  eexists; unfold yarn_re; cbn [seq].
  apply steps_alt_r.
  eapply steps_seq; [apply (steps_lit (str "yarnpkg") _ [])|apply steps_eol].
Qed.

Theorem test_yarn_re s : test yarn_re s = true <-> yarn_script_path s.
Proof.
  rewrite test_steps; unfold yarn_script_path; split.
  - intros (pre & rest & i' & s' & -> & H).
    apply yarn_re_sound in H; destruct H as [(a & Ha & [->| ->])| ->]; eauto 6.
  - intros [(pre & a & Ha & [->| ->])|(pre & ->)].
    + destruct (@yarn_re_js a (List.length pre) Ha) as (i' & H); eauto 6.
    + destruct (@yarn_re_cjs a (List.length pre) Ha) as (i' & H); eauto 6.
    + destruct (yarn_re_pkg (List.length pre)) as (i' & H); eauto 6.
Qed.

(** ** Greedy runs *)


Lemma star_run {R} p a : forall r i c (k : cont R) x,
  Forall (fun y => p y = true) a ->
  stops p r ->
  k (i + List.length a) r c = Some x ->
  star p i (a ++ r) c k = Some x.
Proof.
  induction a as [|y a IH]; intros r i c k x Ha Hr Hk; cbn [app List.length] in *.
  - rewrite Nat.add_0_r in Hk.
    destruct r as [|z r]; cbn; [assumption|].
    cbn in Hr; now rewrite Hr.
  - inversion Ha; subst; cbn.
    match goal with H : p y = true |- _ => rewrite H end.
    rewrite (IH r (S i) c k x); auto.
    now replace (S i + List.length a) with (i + S (List.length a)) by lia.
Qed.

Lemma plus_run {R} p a r i c (k : cont R) x :
  a <> [] ->
  Forall (fun y => p y = true) a ->
  stops p r ->
  k (i + List.length a) r c = Some x ->
  mt (Plus p) i (a ++ r) c k = Some x.
Proof.
  intros Hne Ha Hr Hk.
  destruct a as [|y a]; [contradiction|].
  inversion Ha; subst; cbn [app mt List.length] in *.
  match goal with H : p y = true |- _ => rewrite H end.
  apply star_run; auto.
  now replace (S i + List.length a) with (i + S (List.length a)) by lia.
Qed.

Lemma firstn_span (i : nat) (a r : jsstring) :
  firstn (i + List.length a - i) (a ++ r) = a.
Proof.
  replace (i + List.length a - i) with (List.length a + 0) by lia.
  now rewrite firstn_app_2, app_nil_r.
Qed.

Lemma stops_dot (s : jsstring) : stops digit (46%N :: s).
Proof. reflexivity. Qed.

(** On [major.minor.patch] the version pattern matches at the start and
    captures the three runs of digits. *)
Lemma exec_version_re a b c rest :
  digits a -> digits b -> digits c -> no_digit_head rest ->
  exists m,
    exec version_re (a ++ str "." ++ b ++ str "." ++ c ++ rest) = Some m
    /\ group m 1 = Some a /\ group m 2 = Some b /\ group m 3 = Some c.
Proof.
  intros [Na Da] [Nb Db] [Nc Dc] Hr.
  change (str ".") with [46%N]; cbn [app].
  eexists; split.
  - unfold exec.
    assert (E : forall r s m, match_at r 0 s = Some m -> search r 0 s = Some m).
    { intros r s m E; destruct s; cbn; now rewrite E. }
    apply E; clear E.
    unfold match_at, version_re; cbn [seq mt Nat.eqb].
    apply plus_run; auto using stops_dot.
    cbn [mt]; change (lit "." 46%N) with true; cbv iota.
    apply plus_run; auto using stops_dot.
    cbn [mt]; change (lit "." 46%N) with true; cbv iota.
    apply plus_run; auto.
  - cbn [group groups cap_lookup Nat.eqb].
    rewrite !firstn_span. auto.
Qed.

(** ** The version gates *)

(** Unfold the operations of the monad. *)
Ltac run_m :=
  cbv [bind ret throw emit set_err get_err when console_error console_warn
       process_exit elem];
  cbn [err log fst snd].

Lemma parseInt_digits a : digits a -> parseInt (Some a) = Some (decimal a).
Proof.
  intros [Na Da]; destruct a as [|x a]; [contradiction|].
  inversion Da; subst; unfold parseInt.
  match goal with H : digit x = true |- _ => now rewrite H end.
Qed.

(** Any text splits into its leading digits and a rest that does not go
    on with a digit. *)
Lemma leading_digits (s : jsstring) :
  exists d r, s = d ++ r /\ Forall (fun x => digit x = true) d /\ no_digit_head r.
Proof.
  induction s as [|x s (d & r & -> & Hd & Hr)].
  - exists [], []; cbn; auto.
  - destruct (digit x) eqn:Dx.
    + exists (x :: d), r; cbn; auto.
    + exists [], (x :: d ++ r); cbn; auto.
Qed.

Lemma digits_app a d :
  digits a -> Forall (fun x => digit x = true) d -> digits (a ++ d).
Proof.
  intros [Na Da] Hd; split.
  - destruct a; [contradiction|discriminate].
  - apply Forall_app; auto.
Qed.

Lemma exec_version_re_prefix a b c rest :
  digits a -> digits b -> digits c ->
  exists m,
    exec version_re (a ++ str "." ++ b ++ str "." ++ c ++ rest) = Some m
    /\ group m 1 = Some a /\ group m 2 = Some b
    /\ exists c', group m 3 = Some c'.
Proof.
  intros Ha Hb Hc.
  destruct (leading_digits rest) as (d & r & -> & Hd & Hr).
  destruct (exec_version_re a b (c ++ d) r Ha Hb (digits_app _ _ Hc Hd) Hr)
    as (m & E & G1 & G2 & G3).
  rewrite <- app_assoc in E.
  exists m; eauto.
Qed.


Lemma node_gate_run h st m :
  exec version_re (versions_node h) = Some m ->
  let major := parseInt (group m 1) in
  let minor := parseInt (group m 2) in
  node_gate h st =
    (Ret tt,
     {| err := err st || node_fails major minor;
        log := log st
               ++ (if node_fails major minor then [ConsoleError MsgNodeVersion] else [])
               ++ (if num_ge major 17 then [ConsoleWarn MsgNodeUntested] else []) |}).
Proof.
  intros E; unfold node_gate, node_fails; rewrite E; destruct st as [e l].
  run_m.
  destruct (num_lt _ 16 || _); destruct (num_ge _ 17); cbn;
    rewrite ?app_nil_r, ?orb_true_r, ?orb_false_r, <- ?app_assoc; reflexivity.
Qed.

(** C4.  For every node.js version string that starts with
    [major.minor.patch], the version gate does exactly one of three
    things: when [major < 16], or [major = 16] and [minor < 14], it prints
    the error line and sets the error flag; when [major = 16] and
    [14 <= minor] it does nothing; when [17 <= major] it prints the
    warning and leaves the error flag as it was.  So the flag is set iff
    the version is below 16.14 and the warning is given iff the major
    version is at least 17.  In particular 16.14.0 passes without a
    warning, 16.13.0 fails and 17.0.0 passes with the warning. *)
Theorem node_gate_accepts_from_16_14 :
  (forall h a b c rest st,
     digits a -> digits b -> digits c ->
     versions_node h = a ++ str "." ++ b ++ str "." ++ c ++ rest ->
     let major := decimal a in
     let minor := decimal b in
     ((major < 16 \/ (major = 16 /\ minor < 14))%N /\
      node_gate h st =
        (Ret tt, {| err := true;
                    log := log st ++ [ConsoleError MsgNodeVersion] |}))
     \/ ((major = 16 /\ 14 <= minor)%N /\ node_gate h st = (Ret tt, st))
     \/ ((17 <= major)%N /\
         node_gate h st =
           (Ret tt, {| err := err st;
                       log := log st ++ [ConsoleWarn MsgNodeUntested] |})))
  /\ (forall h, versions_node h = str "16.14.0" ->
        node_gate h initial = (Ret tt, initial))
  /\ (forall h, versions_node h = str "16.13.0" ->
        node_gate h initial =
          (Ret tt, {| err := true; log := [ConsoleError MsgNodeVersion] |}))
  /\ (forall h, versions_node h = str "17.0.0" ->
        node_gate h initial =
          (Ret tt, {| err := false; log := [ConsoleWarn MsgNodeUntested] |})).
Proof.
  split; [|split; [|split]].
  - intros h a b c rest st Ha Hb Hc E major minor.
    destruct (exec_version_re_prefix a b c rest Ha Hb Hc) as (m & X & G1 & G2 & _).
    rewrite <- E in X.
    rewrite (node_gate_run h st m X), G1, G2, !parseInt_digits by assumption.
    fold major minor; unfold node_fails, num_lt, num_eq, num_ge.
    destruct st as [e l]; cbn [err log].
    destruct (N.ltb_spec major 16), (N.eqb_spec major 16), (N.ltb_spec minor 14),
      (N.leb_spec 17 major); cbn; rewrite ?app_nil_r, ?orb_true_r, ?orb_false_r;
      try lia; auto 6.
  - intros h E; unfold node_gate; now rewrite E.
  - intros h E; unfold node_gate; now rewrite E.
  - intros h E; unfold node_gate; now rewrite E.
Qed.

Lemma node_gate_accepts_from_16_14_witness :
  digits (str "16") /\ digits (str "14") /\ digits (str "2")
  /\ versions_node host_yarn
     = str "16" ++ str "." ++ str "14" ++ str "." ++ str "2" ++ []
  /\ node_gate host_yarn initial
     = (Ret tt, initial).
Proof.
  assert (Ha : digits (str "16")) by (split; [discriminate|repeat constructor]).
  assert (Hb : digits (str "14")) by (split; [discriminate|repeat constructor]).
  assert (Hc : digits (str "2")) by (split; [discriminate|repeat constructor]).
  refine (conj Ha (conj Hb (conj Hc (conj eq_refl _)))).
  destruct (proj1 node_gate_accepts_from_16_14
              host_yarn
              (str "16") (str "14") (str "2") [] initial Ha Hb Hc eq_refl)
    as [[H _]|[[_ E]|[H _]]].
  - vm_compute in H; intuition congruence.
  - exact E.
  - vm_compute in H; intuition congruence.
Defined.


Lemma yarn_gate_run h st out m :
  execSync h (str "yarn -v") = Some out ->
  exec version_re (trim out) = Some m ->
  yarn_gate h st =
    (Ret tt,
     if yarn_fails (parseInt (group m 1)) (parseInt (group m 2))
                   (parseInt (group m 3))
     then {| err := true;
             log := log st ++ [EvExecSync (str "yarn -v"); ConsoleError MsgYarnVersion] |}
     else {| err := err st; log := log st ++ [EvExecSync (str "yarn -v")] |}).
Proof.
  intros X E; unfold yarn_gate, yarn_fails, cp_execSync; run_m.
  rewrite X, E.
  destruct (num_lt _ 1 || _ || _); cbn; rewrite <- ?app_assoc; reflexivity.
Qed.


(** C5.  For every output of [yarn -v] that is, once trimmed,
    [major.minor.patch] (not followed by a further digit), the yarn gate
    leaves the error flag as it was iff the version lies in the half-open
    interval from 1.10.1 to 2.0.0, and otherwise prints its error line and
    sets the flag.  In particular 1.10.0 is rejected, 1.10.1 and 1.99.9
    are accepted and 2.0.0 is rejected. *)
Theorem yarn_gate_accepts_1_10_1_to_2 :
  (forall h out a b c rest st,
     digits a -> digits b -> digits c -> no_digit_head rest ->
     execSync h (str "yarn -v") = Some out ->
     trim out = a ++ str "." ++ b ++ str "." ++ c ++ rest ->
     let v := (decimal a, decimal b, decimal c) in
     (yarn_range v /\
      yarn_gate h st =
        (Ret tt, {| err := err st;
                    log := log st ++ [EvExecSync (str "yarn -v")] |}))
     \/ (~ yarn_range v /\
         yarn_gate h st =
           (Ret tt, {| err := true;
                       log := log st ++ [EvExecSync (str "yarn -v");
                                        ConsoleError MsgYarnVersion] |})))
  /\ (forall h st, execSync h (str "yarn -v") = Some (str "1.10.0") ->
        yarn_gate h st =
          (Ret tt, {| err := true;
                      log := log st ++ [EvExecSync (str "yarn -v");
                                       ConsoleError MsgYarnVersion] |}))
  /\ (forall h st, execSync h (str "yarn -v") = Some (str "1.10.1") ->
        yarn_gate h st =
          (Ret tt, {| err := err st;
                      log := log st ++ [EvExecSync (str "yarn -v")] |}))
  /\ (forall h st, execSync h (str "yarn -v") = Some (str "1.99.9") ->
        yarn_gate h st =
          (Ret tt, {| err := err st;
                      log := log st ++ [EvExecSync (str "yarn -v")] |}))
  /\ (forall h st, execSync h (str "yarn -v") = Some (str "2.0.0") ->
        yarn_gate h st =
          (Ret tt, {| err := true;
                      log := log st ++ [EvExecSync (str "yarn -v");
                                       ConsoleError MsgYarnVersion] |})).
Proof.
  split;
    [|repeat split; intros h st E;
      match type of E with _ = Some ?out =>
        destruct (exec version_re (trim out)) as [m|] eqn:X;
          [|vm_compute in X; discriminate];
        rewrite (yarn_gate_run h st out m E X);
        vm_compute in X; injection X as <-; reflexivity
      end].
  intros h out a b c rest st Ha Hb Hc Hr X E v.
  destruct (exec_version_re a b c rest Ha Hb Hc Hr) as (m & Y & G1 & G2 & G3).
  rewrite <- E in Y.
  rewrite (yarn_gate_run h st out m X Y), G1, G2, G3, !parseInt_digits by assumption.
  unfold yarn_fails, num_lt, num_eq, num_ge, v, yarn_range, triple_le, triple_lt.
  destruct (N.ltb_spec (decimal a) 1), (N.eqb_spec (decimal a) 1),
    (N.ltb_spec (decimal b) 10), (N.eqb_spec (decimal b) 10),
    (N.ltb_spec (decimal c) 1), (N.leb_spec 2 (decimal a)); cbn;
    try lia; (left; split; [lia|reflexivity]) || (right; split; [lia|reflexivity]).
Qed.

Lemma yarn_gate_accepts_1_10_1_to_2_witness :
  digits (str "1") /\ digits (str "22") /\ digits (str "19") /\ no_digit_head []
  /\ execSync host_yarn (str "yarn -v")
     = Some (str "1.22.19" ++ [LF])
  /\ trim (str "1.22.19" ++ [LF])
     = str "1" ++ str "." ++ str "22" ++ str "." ++ str "19" ++ []
  /\ yarn_gate host_yarn initial
     = (Ret tt, {| err := false; log := [EvExecSync (str "yarn -v")] |}).
Proof.
  assert (Ha : digits (str "1")) by (split; [discriminate|repeat constructor]).
  assert (Hb : digits (str "22")) by (split; [discriminate|repeat constructor]).
  assert (Hc : digits (str "19")) by (split; [discriminate|repeat constructor]).
  refine (conj Ha (conj Hb (conj Hc (conj I (conj eq_refl (conj eq_refl _)))))).
  destruct (proj1 yarn_gate_accepts_1_10_1_to_2
              host_yarn
              (str "1.22.19" ++ [LF]) (str "1") (str "22") (str "19") [] initial
              Ha Hb Hc I eq_refl eq_refl)
    as [[_ E]|[H _]].
  - exact E.
  - exfalso; apply H; vm_compute; intuition congruence.
Defined.

(** ** The invoker check *)

Lemma rev_inj (a b : jsstring) : rev a = rev b -> a = b.
Proof. intros H; rewrite <- (rev_involutive a), <- (rev_involutive b); now f_equal. Qed.

Lemma npm_cli_not_yarn pre : ~ yarn_script_path (pre ++ str "/npm-cli.js").
Proof.
  intros [(p & a & Ha & [E|E])|(p & E)];
    apply (f_equal (@rev code_unit)) in E;
    repeat rewrite rev_app_distr in E; cbn in E.
  - apply Forall_rev in Ha.
    revert Ha E; generalize (rev a) as b; intros b Ha E.
    injection E as E.
    do 8 (destruct b as [|x b]; cbn in E; [discriminate|];
          injection E as <- E; apply Forall_cons_iff in Ha; destruct Ha as [Hx Ha];
          try discriminate; clear Hx).
  - discriminate.
  - discriminate.
Qed.

Lemma invoker_check_run h st :
  invoker_check h st =
    if test yarn_re (to_string (process_env h (str "npm_execpath")))
    then (Ret tt, st)
    else (Ret tt, {| err := true; log := log st ++ [ConsoleError MsgUseYarn] |}).
Proof.
  unfold invoker_check.
  destruct (test yarn_re _); reflexivity.
Qed.

Lemma yarn_js_path pre : yarn_script_path (pre ++ str "/yarn.js").
Proof.
  left; exists (pre ++ str "/"), []; split; [constructor|].
  left; now rewrite <- app_assoc.
Qed.

Lemma yarn_cjs_path pre : yarn_script_path (pre ++ str "/yarn-1.2.3.cjs").
Proof.
  left; exists (pre ++ str "/"), (str "-1.2.3"); split; [repeat constructor|].
  right; now rewrite <- app_assoc.
Qed.

Lemma yarnpkg_path pre : yarn_script_path (pre ++ str "/yarnpkg").
Proof. right; exists (pre ++ str "/"); now rewrite <- app_assoc. Qed.

(** C6.  For every value of [npm_execpath], the invoker check passes
    (changes nothing) iff the path ends in a yarn script name, that is in
    [yarn], a possibly empty run of word characters, hyphens and dots,
    and [.js] or [.cjs], or ends in [yarnpkg]; otherwise it prints its
    error line and sets the error flag.  In particular every path ending
    in [/yarn.js], [/yarn-1.2.3.cjs] or [/yarnpkg] passes and every path
    ending in [/npm-cli.js] sets the flag. *)
Theorem invoker_check_accepts_yarn_script_paths :
  (forall h s st, env h (str "npm_execpath") = Some s ->
     (yarn_script_path s /\ invoker_check h st = (Ret tt, st))
     \/ (~ yarn_script_path s /\
         invoker_check h st =
           (Ret tt, {| err := true; log := log st ++ [ConsoleError MsgUseYarn] |})))
  /\ (forall h pre st, env h (str "npm_execpath") = Some (pre ++ str "/yarn.js") ->
        invoker_check h st = (Ret tt, st))
  /\ (forall h pre st, env h (str "npm_execpath") = Some (pre ++ str "/yarn-1.2.3.cjs") ->
        invoker_check h st = (Ret tt, st))
  /\ (forall h pre st, env h (str "npm_execpath") = Some (pre ++ str "/yarnpkg") ->
        invoker_check h st = (Ret tt, st))
  /\ (forall h pre st, env h (str "npm_execpath") = Some (pre ++ str "/npm-cli.js") ->
        invoker_check h st =
          (Ret tt, {| err := true; log := log st ++ [ConsoleError MsgUseYarn] |})).
Proof.
  assert (G : forall h s st, env h (str "npm_execpath") = Some s ->
     (yarn_script_path s /\ invoker_check h st = (Ret tt, st))
     \/ (~ yarn_script_path s /\
         invoker_check h st =
           (Ret tt, {| err := true; log := log st ++ [ConsoleError MsgUseYarn] |}))).
  { intros h s st E.
    rewrite invoker_check_run; unfold process_env; rewrite E; cbn [to_string].
    destruct (test yarn_re s) eqn:T.
    - left; split; [now apply test_yarn_re|reflexivity].
    - right; split; [|reflexivity].
      intros Hy%test_yarn_re; congruence. }
  split; [exact G|split; [|split; [|split]]]; intros h pre st E;
    destruct (G h _ st E) as [[Y R]|[Y R]]; try exact R.
  - destruct (Y (yarn_js_path pre)).
  - destruct (Y (yarn_cjs_path pre)).
  - destruct (Y (yarnpkg_path pre)).
  - destruct (npm_cli_not_yarn pre Y).
Qed.

Lemma invoker_check_accepts_yarn_script_paths_witness :
  env host_yarn (str "npm_execpath")
    = Some (str "C:\Program Files\nodejs\node_modules\yarn\bin\yarn.js")
  /\ invoker_check host_yarn initial = (Ret tt, initial).
Proof.
  split; [reflexivity|].
  destruct (proj1 invoker_check_accepts_yarn_script_paths host_yarn _ initial eq_refl)
    as [[_ E]|[_ E]]; [exact E|vm_compute in E; discriminate].
Defined.

(** C10.  When [npm_execpath] is not set at all, the invoker check
    fails: the pattern is tested against the text [undefined], the error
    line is printed and the error flag is set. *)
Theorem invoker_check_rejects_unset_path h st :
  env h (str "npm_execpath") = None ->
  invoker_check h st =
    (Ret tt, {| err := true; log := log st ++ [ConsoleError MsgUseYarn] |}).
Proof.
  intros E; rewrite invoker_check_run; unfold process_env; rewrite E.
  reflexivity.
Qed.

Lemma invoker_check_rejects_unset_path_witness :
  invoker_check host_no_execpath initial
  = (Ret tt, {| err := true; log := [ConsoleError MsgUseYarn] |}).
Proof.
  apply (invoker_check_rejects_unset_path host_no_execpath initial).
  reflexivity.
Defined.

(** ** Toolchain discovery *)

Lemma find_app {A} (f : A -> bool) (l1 l2 : list A) :
  find f (l1 ++ l2) = match find f l1 with Some x => Some x | None => find f l2 end.
Proof.
  induction l1 as [|x l1 IH]; cbn; [reflexivity|].
  now destruct (f x).
Qed.

Lemma vsTypes_loop_find h vsPath : forall vsTypes st,
  vsTypes_loop h vsPath vsTypes st =
    (Ret (first_existing h (map (fun t => join h [vsPath; t]) vsTypes)), st).
Proof.
  unfold first_existing.
  induction vsTypes as [|t l IH]; intros st; cbn [vsTypes_loop map find].
  - reflexivity.
  - unfold path_join; cbn [all_strings]; run_m.
    destruct (existsSync h (join h [vsPath; t])); [reflexivity|apply IH].
Qed.

Section Discovery.
Variable h : Host.
(** [path.join] never yields the empty string. *)
Hypothesis join_nonempty : forall l, join h l <> [].

Lemma first_existing_truthy root version l :
  truthy (first_existing h (map (edition_path h root version) l))
  = match find (existsSync h) (map (edition_path h root version) l) with
    | Some _ => true
    | None => false
    end.
Proof.
  unfold first_existing.
  destruct (find _ _) as [p|] eqn:F; [|reflexivity].
  apply find_some in F; destruct F as [Hin _].
  apply in_map_iff in Hin; destruct Hin as (e & <- & _).
  unfold edition_path.
  destruct (join h _) eqn:J; [now apply join_nonempty in J|reflexivity].
Qed.

Lemma findAvailable_find name version st :
  findAvailableVSPathForVersion h (process_env h name) version st =
    (Ret (first_existing h
            (flat_map (fun root => map (edition_path h root version) editions)
                      (env_set h name))), st).
Proof.
  unfold findAvailableVSPathForVersion, process_env, env_set.
  destruct (env h name) as [[|x p]|]; cbn [truthy negb]; try reflexivity.
  rewrite vsTypes_loop_find; cbn [flat_map to_string].
  now rewrite app_nil_r.
Qed.

Lemma roots_part version st :
  roots_loop h version
    [process_env h (str "ProgramFiles"); process_env h (str "ProgramFiles(x86)")] st =
    (Ret (match find (existsSync h)
                  (flat_map (fun root => map (edition_path h root version) editions)
                     (env_set h (str "ProgramFiles")
                      ++ env_set h (str "ProgramFiles(x86)"))) with
          | Some p => Some (VStr p)
          | None => None
          end), st).
Proof.
  cbn [roots_loop]; unfold bind.
  rewrite flat_map_app, find_app.
  rewrite (findAvailable_find (str "ProgramFiles")).
  assert (T : forall name,
    truthy (first_existing h
      (flat_map (fun root => map (edition_path h root version) editions)
                (env_set h name)))
    = match find (existsSync h)
              (flat_map (fun root => map (edition_path h root version) editions)
                        (env_set h name)) with
      | Some _ => true | None => false end).
  { intros name; unfold env_set.
    destruct (env h name) as [[|x p]|]; try reflexivity.
    cbn [flat_map]; rewrite app_nil_r; apply first_existing_truthy. }
  rewrite T; unfold first_existing at 1.
  destruct (find _ (flat_map _ (env_set h (str "ProgramFiles")))); [reflexivity|].
  rewrite (findAvailable_find (str "ProgramFiles(x86)")), T.
  unfold first_existing.
  destruct (find _ _); reflexivity.
Qed.

Lemma versions_loop_find : forall versions st,
  versions_loop h versions st =
    (Ret (first_existing h (flat_map (version_candidates h) versions)), st).
Proof.
  induction versions as [|v l IH]; intros st; [reflexivity|].
  cbn [versions_loop flat_map].
  unfold first_existing, version_candidates at 1.
  rewrite !find_app.
  assert (P : process_env h (str "vs" ++ v ++ str "_install")
              = match env h (str "vs" ++ v ++ str "_install") with
                | Some s => VStr s
                | None => VUndefined
                end) by reflexivity.
  rewrite P; clear P; unfold env_set at 1.
  destruct (env h (str "vs" ++ v ++ str "_install")) as [[|x p]|];
    cbn [truthy andb to_string find].
  - unfold bind; rewrite roots_part.
    destruct (find _ _); [reflexivity|apply IH].
  - destruct (existsSync h (x :: p)); [reflexivity|].
    unfold bind; rewrite roots_part.
    destruct (find _ _); [reflexivity|apply IH].
  - unfold bind; rewrite roots_part.
    destruct (find _ _); [reflexivity|apply IH].
Qed.
End Discovery.

Lemma sample_join_nonempty l : sample_join l <> [].
Proof. unfold sample_join; destruct (map _ _); discriminate. Qed.

Lemma find_none_all {A} (f : A -> bool) (l : list A) :
  (forall x, In x l -> f x = false) -> find f l = None.
Proof.
  induction l as [|x l IH]; intros H; [reflexivity|].
  cbn; rewrite (H x (or_introl eq_refl)).
  apply IH; intros y Hy; apply H; now right.
Qed.

(** C7, amended.  Toolchain discovery returns the first existing path in
    this order of preference: for the versions 2022, 2019, 2017 in turn,
    first the value of [vs<version>_install] when that variable is set,
    then under [ProgramFiles] and then under [ProgramFiles(x86)] the
    directories [Microsoft Visual Studio/<version>/<edition>] for the
    editions Enterprise, Professional, Community, Preview, BuildTools in
    turn, every edition under the first root coming before Enterprise
    under the second; it returns null when none of them exists.  It
    returns a 2022 Enterprise path that exists, whether or not a 2019
    Community directory exists as well, provided no existing 2022
    override is set and the Enterprise directory lies under
    [ProgramFiles], or under [ProgramFiles(x86)] with no 2022 edition
    existing under [ProgramFiles].  A variable counts as set when it
    holds a non-empty string, and [path.join] is taken never to return
    the empty string. *)
Theorem findSupportedVisualStudioVersion_first_existing_candidate h st :
  (forall l, join h l <> []) ->
  findSupportedVisualStudioVersion h st = (Ret (first_existing h (candidates h)), st)
  /\ (forall root,
        find (existsSync h) (env_set h (str "vs2022_install")) = None ->
        existsSync h (edition_path h root (str "2022") (str "Enterprise")) = true ->
        env_set h (str "ProgramFiles") = [root]
        \/ (env_set h (str "ProgramFiles(x86)") = [root]
            /\ forall root64 edition,
                 In root64 (env_set h (str "ProgramFiles")) ->
                 In edition editions ->
                 existsSync h (edition_path h root64 (str "2022") edition) = false) ->
        findSupportedVisualStudioVersion h st =
          (Ret (VStr (edition_path h root (str "2022") (str "Enterprise"))), st))
  /\ ((forall p, In p (candidates h) -> existsSync h p = false) ->
      findSupportedVisualStudioVersion h st = (Ret VNull, st)).
Proof.
  intros J.
  assert (E : findSupportedVisualStudioVersion h st
              = (Ret (first_existing h (candidates h)), st))
    by (apply versions_loop_find; exact J).
  split; [exact E|split].
  - intros root Ho He Hr.
    rewrite E; unfold first_existing, candidates.
    cbn [flat_map]; unfold version_candidates at 1.
    change (str "vs" ++ str "2022" ++ str "_install") with (str "vs2022_install").
    rewrite !find_app, Ho, flat_map_app, find_app.
    destruct Hr as [Hr|[Hr H64]].
    + rewrite Hr; cbn [flat_map app editions map find].
      now rewrite He.
    + rewrite (find_none_all (existsSync h)
                 (flat_map (fun r => map (edition_path h r (str "2022")) editions)
                           (env_set h (str "ProgramFiles")))).
      * rewrite Hr; cbn [flat_map app editions map find].
        now rewrite He.
      * intros p (r & Hin & (ed & <- & Hed)%in_map_iff)%in_flat_map.
        now apply H64.
  - intros Hn; rewrite E; unfold first_existing.
    destruct (find _ _) as [p|] eqn:F; [|reflexivity].
    apply find_some in F; destruct F as [Hin Hp].
    rewrite (Hn p Hin) in Hp; discriminate.
Qed.

Lemma findSupportedVisualStudioVersion_first_existing_candidate_witness :
  (forall l, join host_vs l <> [])
  /\ existsSync host_vs
       (str "C:\Program Files (x86)\Microsoft Visual Studio\2019\Community") = true
  /\ findSupportedVisualStudioVersion host_vs initial
     = (Ret (VStr (str "C:\Program Files\Microsoft Visual Studio\2022\Enterprise")),
        initial).
Proof.
  split; [exact sample_join_nonempty|split; [reflexivity|]].
  apply (proj1 (proj2 (findSupportedVisualStudioVersion_first_existing_candidate
                         host_vs initial sample_join_nonempty))
           (str "C:\Program Files")).
  - reflexivity.
  - reflexivity.
  - left; reflexivity.
Defined.

(** Against C7 as stated: 2022 Enterprise and 2019 Community both exist,
    yet discovery returns another path.  On the first machine a 2022
    BuildTools directory under [ProgramFiles] comes before the Enterprise
    directory under [ProgramFiles(x86)], the loop over the roots being
    outside the loop over the editions; on the second an existing
    [vs2022_install] override comes before every directory. *)
Lemma discovery_returns_another_path_than_enterprise :
  (existsSync host_buildtools_first
     (str "C:\Program Files (x86)\Microsoft Visual Studio\2022\Enterprise") = true
   /\ existsSync host_buildtools_first
        (str "C:\Program Files (x86)\Microsoft Visual Studio\2019\Community") = true
   /\ findSupportedVisualStudioVersion host_buildtools_first initial
      = (Ret (VStr (str "C:\Program Files\Microsoft Visual Studio\2022\BuildTools")),
         initial))
  /\ (existsSync host_vs_override
        (str "C:\Program Files\Microsoft Visual Studio\2022\Enterprise") = true
      /\ existsSync host_vs_override
           (str "C:\Program Files (x86)\Microsoft Visual Studio\2019\Community") = true
      /\ findSupportedVisualStudioVersion host_vs_override initial
         = (Ret (VStr (str "D:\VS2022")), initial)).
Proof. repeat split; vm_compute; reflexivity. Qed.

(** Discovery only asks questions: it leaves the state as it was. *)
Lemma roots_loop_pure h version : forall roots st,
  roots_loop h version roots st = (fst (roots_loop h version roots initial), st).
Proof.
  assert (A : forall v st, findAvailableVSPathForVersion h v version st
              = (fst (findAvailableVSPathForVersion h v version initial), st)).
  { intros v st; unfold findAvailableVSPathForVersion.
    destruct (negb (truthy v)); [reflexivity|].
    now rewrite !vsTypes_loop_find. }
  induction roots as [|v l IH]; intros st; [reflexivity|].
  cbn [roots_loop]; unfold bind.
  rewrite (A v st), (A v initial).
  destruct (fst (findAvailableVSPathForVersion h v version initial)) as [x|e|c];
    cbn [fst]; try reflexivity.
  destruct (truthy x); [reflexivity|].
  rewrite (IH st), (IH initial); reflexivity.
Qed.

Lemma versions_loop_pure h : forall versions st,
  versions_loop h versions st = (fst (versions_loop h versions initial), st).
Proof.
  induction versions as [|v l IH]; intros st; [reflexivity|].
  cbn [versions_loop].
  destruct (truthy _ && _); [reflexivity|].
  unfold bind.
  rewrite (roots_loop_pure h v _ st), (roots_loop_pure h v _ initial).
  destruct (fst (roots_loop h v _ initial)) as [[x|]|e|c]; cbn [fst]; try reflexivity.
  rewrite (IH st), (IH initial); reflexivity.
Qed.

Lemma findSupportedVisualStudioVersion_pure h st :
  findSupportedVisualStudioVersion h st
  = (fst (findSupportedVisualStudioVersion h initial), st).
Proof. apply versions_loop_pure. Qed.

(** ** Spectre mitigation *)


(** C9.  For every toolchain path, [enableSpectreMode] returns normally
    and leaves the error flag as it was.  When the setup script does not
    exist it only prints that it is missing; otherwise it runs the script
    with the Spectre argument and, when the status is a non-zero number,
    only prints that status. *)
Theorem enableSpectreMode_leaves_err h vsPath st :
  exists st',
    enableSpectreMode h (VStr vsPath) st = (Ret tt, st')
    /\ err st' = err st
    /\ log st' =
         log st ++
         (if existsSync h (vcvarsall h vsPath) then
            EvSpawnSync (vcvarsall h vsPath) [spectre_arg] None ::
            match sp_status (spawnSync h (vcvarsall h vsPath) [spectre_arg] None) with
            | Some status =>
                if Z.eqb status 0 then []
                else [ConsoleError (MsgVcvarsStatus status)]
            | None => []
            end
          else [ConsoleError MsgVcvarsMissing]).
Proof.
  unfold enableSpectreMode, path_join, cp_spawnSync; cbn [all_strings]; run_m.
  fold (vcvarsall h vsPath); fold spectre_arg.
  destruct (existsSync h (vcvarsall h vsPath)); cbn [negb].
  - destruct (sp_status _) as [z|]; [destruct (Z.eqb z 0)|]; cbn [negb];
      eexists; repeat split; cbn [log]; rewrite <- ?app_assoc; reflexivity.
  - eexists; repeat split.
Qed.


Lemma bind_ret {A B} (m : M A) (k : A -> M B) st a st' :
  m st = (Ret a, st') -> bind m k st = k a st'.
Proof. unfold bind; now intros ->. Qed.

(** The three gates start no process other than [yarn -v], which is
    logged as [EvExecSync], and hand over to what follows. *)
Lemma gates_quiet h m out m' st :
  exec version_re (versions_node h) = Some m ->
  execSync h (str "yarn -v") = Some out ->
  exec version_re (trim out) = Some m' ->
  exists st',
    (forall B (k : M B),
        (node_gate h ;; yarn_gate h ;; invoker_check h ;; k) st = k st')
    /\ existsb starts_process (log st') = existsb starts_process (log st).
Proof.
  intros N Y Y'.
  exists (snd (invoker_check h
            (snd (yarn_gate h (snd (node_gate h st)))))).
  split.
  - intros B k.
    rewrite (bind_ret _ _ _ _ _ (node_gate_run h st m N)).
    rewrite (bind_ret _ _ _ _ _ (yarn_gate_run h _ out m' Y Y')).
    rewrite (node_gate_run h st m N); cbn [snd].
    rewrite (yarn_gate_run h _ out m' Y Y'); cbn [snd].
    unfold bind; rewrite invoker_check_run.
    destruct (test yarn_re _); reflexivity.
  - rewrite (node_gate_run h st m N); cbn [snd].
    rewrite (yarn_gate_run h _ out m' Y Y'); cbn [snd].
    rewrite invoker_check_run.
    destruct (test yarn_re _), (yarn_fails _ _ _), (node_fails _ _), (num_ge _ 17);
      cbn [snd log]; rewrite ?existsb_app; cbn; rewrite ?orb_false_r; reflexivity.
Qed.

(** C1, where the code departs from the claim.  On Windows, when the two
    version strings parse and toolchain discovery returns null, the run
    prints the toolchain error and sets the error flag, and then calls
    [enableSpectreMode] with null: [path.join] throws a TypeError, which
    nothing catches.  The run ends there with status 1 and without having
    started a process, so header installation is indeed skipped, but it
    does not go on to the final check that would exit through the
    accumulated flag. *)
Theorem windows_without_toolchain_throws h m out m' :
  streq (platform h) (str "win32") = true ->
  exec version_re (versions_node h) = Some m ->
  execSync h (str "yarn -v") = Some out ->
  exec version_re (trim out) = Some m' ->
  fst (findSupportedVisualStudioVersion h initial) = Ret VNull ->
  exists st,
    run h = (Throw TypeError_path_argument, st)
    /\ err st = true
    /\ (exists l, log st = l ++ [ConsoleError MsgToolchain])
    /\ existsb starts_process (log st) = false
    /\ exit_status (fst (run h)) = 1%Z.
Proof.
  intros W N Y Y' D.
  destruct (gates_quiet h m out m' initial N Y Y') as (st3 & G & Q).
  assert (E : run h =
    (Throw TypeError_path_argument,
     {| err := true; log := log st3 ++ [ConsoleError MsgToolchain] |})).
  { unfold run, script; rewrite G.
    unfold windows_branch; rewrite W.
    unfold bind at 1 2.
    rewrite findSupportedVisualStudioVersion_pure, D.
    reflexivity. }
  rewrite E; eexists; split; [reflexivity|cbn [err log fst exit_status]].
  split; [reflexivity|split; [eexists; reflexivity|split; [|reflexivity]]].
  rewrite existsb_app, Q; reflexivity.
Qed.

Lemma windows_without_toolchain_throws_witness :
  run host_yarn
  = (Throw TypeError_path_argument,
     {| err := true;
        log := [EvExecSync (str "yarn -v"); ConsoleError MsgToolchain] |}).
Proof.
  destruct (exec version_re (versions_node host_yarn)) as [m|] eqn:N;
    [|vm_compute in N; discriminate].
  destruct (exec version_re (trim (str "1.22.19" ++ [LF]))) as [m'|] eqn:Y;
    [|vm_compute in Y; discriminate].
  destruct (windows_without_toolchain_throws host_yarn m (str "1.22.19" ++ [LF]) m'
              eq_refl N eq_refl Y eq_refl) as (st & E & _).
  rewrite E; vm_compute in E.
  now inversion E.
Defined.

(** ** Header specs *)

Lemma getHeaderInfo_read h rcFile content st :
  readFileSync h rcFile = Some content ->
  getHeaderInfo h rcFile st = (Ret (parse_header content), st).
Proof.
  intros E; unfold getHeaderInfo, fs_readFileSync, parse_header; rewrite E; run_m.
  destruct (fold_left _ _ _) as [[d|] [t|]]; reflexivity.
Qed.

Lemma key_re_sound key i s i' s' :
  steps (key_re key) i s i' s' ->
  exists a ws1 v ws2,
    s = a ++ key ++ ws1 ++ [dquote] ++ v ++ [dquote] ++ ws2
    /\ Forall (fun x => space x = true) ws1
    /\ Forall (fun x => any x = true) v
    /\ Forall (fun x => space x = true) ws2.
Proof.
  unfold key_re; cbn [seq]; intros H.
  apply steps_seq_inv in H; destruct H as (i1 & s1 & H1 & H).
  apply steps_star_inv in H1; destruct H1 as (a & _ & -> & _).
  apply steps_seq_inv in H; destruct H as (i2 & s2 & ->%steps_lit_inv & H).
  apply steps_seq_inv in H; destruct H as (i3 & s3 & H3 & H).
  apply steps_star_inv in H3; destruct H3 as (ws1 & W1 & -> & _).
  apply steps_seq_inv in H; destruct H as (i4 & s4 & H4 & H).
  apply steps_chr_inv in H4; destruct H4 as (q & Hq & ->).
  apply N.eqb_eq in Hq; subst q.
  apply steps_seq_inv in H; destruct H as (i5 & s5 & H5 & H).
  apply steps_group_inv, steps_star_inv in H5; destruct H5 as (v & V & -> & _).
  apply steps_seq_inv in H; destruct H as (i6 & s6 & H6 & H).
  apply steps_chr_inv in H6; destruct H6 as (q & Hq & ->).
  apply N.eqb_eq in Hq; subst q.
  apply steps_seq_inv in H; destruct H as (i7 & s7 & H7 & H).
  apply steps_star_inv in H7; destruct H7 as (ws2 & W2 & -> & _).
  apply steps_eol_inv in H; destruct H as [-> _].
  exists a, ws1, v, ws2; rewrite app_nil_r; auto.
Qed.

Lemma key_re_complete key ws1 v ws2 i :
  Forall (fun x => space x = true) ws1 ->
  Forall (fun x => any x = true) v ->
  Forall (fun x => space x = true) ws2 ->
  exists i',
    steps (key_re key) i (key ++ ws1 ++ [dquote] ++ v ++ [dquote] ++ ws2) i' [].
Proof.
  intros W1 V W2; eexists; unfold key_re; cbn [seq].
  eapply steps_seq; [apply steps_star_stop|].
  eapply steps_seq; [apply steps_lit|].
  eapply steps_seq; [apply steps_star_run; exact W1|].
  eapply steps_seq; [apply (steps_chr (cu dquote)); reflexivity|].
  eapply steps_seq; [apply steps_group, steps_star_run; exact V|].
  eapply steps_seq; [apply (steps_chr (cu dquote)); reflexivity|].
  eapply steps_seq; [|apply steps_eol].
  rewrite <- (app_nil_r ws2) at 1.
  apply steps_star_run; exact W2.
Qed.

(** The pattern of a key finds a match exactly in the lines that carry
    the key. *)
Theorem test_key_re key line : test (key_re key) line = true <-> key_line key line.
Proof.
  rewrite test_steps; unfold key_line; split.
  - intros (pre & rest & i' & s' & -> & H).
    apply key_re_sound in H; destruct H as (a & ws1 & v & ws2 & -> & W1 & V & W2).
    exists (pre ++ a), ws1, v, ws2; rewrite <- app_assoc; auto.
  - intros (pre & ws1 & v & ws2 & -> & W1 & V & W2).
    destruct (key_re_complete key ws1 v ws2 (List.length pre) W1 V W2) as (i' & H).
    eauto 6.
Qed.

Lemma exec_none_iff r s : exec r s = None <-> test r s = false.
Proof. unfold test; destruct (exec r s); split; congruence. Qed.

Lemma fold_header_line_without_disturl lines : forall d t,
  (forall line, In line lines -> exec disturl_re line = None) ->
  fst (fold_left header_line lines (d, t)) = d.
Proof.
  induction lines as [|l lines IH]; intros d t H; [reflexivity|].
  cbn [fold_left]; unfold header_line at 2.
  rewrite (H l (or_introl eq_refl)).
  apply IH; intros; apply H; now right.
Qed.

Lemma fold_header_line_without_target lines : forall d t,
  (forall line, In line lines -> exec target_re line = None) ->
  snd (fold_left header_line lines (d, t)) = t.
Proof.
  induction lines as [|l lines IH]; intros d t H; [reflexivity|].
  cbn [fold_left]; unfold header_line at 2.
  rewrite (H l (or_introl eq_refl)).
  apply IH; intros; apply H; now right.
Qed.

Lemma absent_no_match key content line :
  key_absent key content -> In line (split crlf_re content) ->
  exec (key_re key) line = None.
Proof.
  intros A Hin; apply exec_none_iff.
  destruct (test (key_re key) line) eqn:T; [|reflexivity].
  apply test_key_re in T; now apply A in T.
Qed.

(** A file without one of the two keys yields no header spec. *)
Lemma parse_header_absent content :
  key_absent (str "disturl") content \/ key_absent (str "target") content ->
  parse_header content = None.
Proof.
  unfold parse_header; intros [A|A].
  - pose proof (fold_header_line_without_disturl (split crlf_re content) None None
                  (fun l H => absent_no_match _ _ l A H)) as F.
    destruct (fold_left _ _ _) as [[d|] [t|]]; cbn in F; congruence.
  - pose proof (fold_header_line_without_target (split crlf_re content) None None
                  (fun l H => absent_no_match _ _ l A H)) as F.
    destruct (fold_left _ _ _) as [[d|] [t|]]; cbn in F; congruence.
Qed.

(** ** Files with CR LF line ends *)

(** A greedy run gives back what lies beyond [a] when the continuation
    refuses every longer split. *)
Lemma star_refused {R} p : forall r i c (k : cont R),
  (forall r1 r2 j, r = r1 ++ r2 -> r1 <> [] -> k j r2 c = None) ->
  star p i r c k = k i r c.
Proof.
  induction r as [|x r IH]; intros i c k H; [reflexivity|].
  cbn; destruct (p x); [|reflexivity].
  rewrite IH.
  - now rewrite (H [x] r (S i) eq_refl).
  - intros r1 r2 j -> Hne; apply (H (x :: r1) r2 j eq_refl); discriminate.
Qed.

Lemma star_exact {R} p a : forall r i c (k : cont R) x,
  Forall (fun y => p y = true) a ->
  (forall r1 r2 j, r = r1 ++ r2 -> r1 <> [] -> k j r2 c = None) ->
  k (i + List.length a) r c = Some x ->
  star p i (a ++ r) c k = Some x.
Proof.
  induction a as [|y a IH]; intros r i c k x Ha H K; cbn [app List.length] in *.
  - rewrite Nat.add_0_r in K; now rewrite star_refused.
  - inversion Ha; subst; cbn.
    match goal with E : p y = true |- _ => rewrite E end.
    rewrite (IH r (S i) c k x); auto.
    now replace (S i + List.length a) with (i + S (List.length a)) by lia.
Qed.

(** On a plain key line the pattern of the key matches and captures the
    value. *)
Lemma exec_plain_key_line key value line :
  stops space key -> key <> [] ->
  plain_key_line key value line ->
  exists m, exec (key_re key) line = Some m /\ group m 1 = Some value.
Proof.
  intros Hk Hne (ws0 & ws1 & ws2 & -> & W0 & W1 & W2 & V).
  assert (E : forall r s m, match_at r 0 s = Some m -> search r 0 s = Some m).
  { intros r s m E; destruct s; cbn; now rewrite E. }
  eexists; split.
  - apply E; clear E.
    unfold match_at, key_re; cbn [seq mt].
    apply star_run; [exact W0| |].
    { destruct key; [contradiction|exact Hk]. }
    rewrite strip_prefix_app.
    apply star_run; [exact W1|reflexivity|].
    cbn [app]; unfold cu at 1; rewrite N.eqb_refl.
    apply star_exact.
    + exact V.
    + intros r1 r2 j Er Hr.
      destruct r1 as [|q r1]; [contradiction|].
      injection Er as <- ->.
      cbn [mt]; destruct r2 as [|z r2]; [reflexivity|].
      apply Forall_app in W2; destruct W2 as [_ W2].
      inversion W2 as [|? ? Hz _]; subst.
      unfold cu; destruct (N.eqb_spec z dquote) as [->|]; [discriminate|reflexivity].
    + cbn [mt]; unfold cu at 1; rewrite N.eqb_refl.
      rewrite <- (app_nil_r ws2) at 1.
      apply star_run; [exact W2|exact I|reflexivity].
  - cbn [group groups cap_lookup Nat.eqb].
    now rewrite firstn_span.
Qed.

(** [getHeaderInfo] cuts a file with CR LF line ends into its lines and
    a last empty piece. *)
Lemma split_go_crlf_line l : forall i cur rest,
  Forall (fun x => x <> CR) l ->
  split_go crlf_re i (l ++ CR :: LF :: rest) 0 cur
  = (rev cur ++ l) :: split_go crlf_re (S (S (i + List.length l))) rest 0 [].
Proof.
  induction l as [|x l IH]; intros i cur rest Hl.
  - cbn [app split_go crlf_re mt List.length].
    unfold cu; cbn [N.eqb CR LF Pos.eqb].
    replace (S (S i) - i) with 2 by lia.
    now rewrite app_nil_r, Nat.add_0_r.
  - inversion Hl as [|? ? Hx Hl']; subst.
    cbn [app split_go crlf_re mt List.length].
    unfold cu at 1; destruct (N.eqb_spec x CR) as [->|_]; [contradiction|].
    rewrite IH by assumption.
    cbn [rev]; rewrite <- app_assoc; cbn [app].
    now replace (S i + List.length l) with (i + S (List.length l)) by lia.
Qed.

Lemma split_go_crlf_file : forall lines i,
  Forall (Forall (fun x => x <> CR)) lines ->
  split_go crlf_re i (crlf_file lines) 0 [] = lines ++ [[]].
Proof.
  induction lines as [|l lines IH]; intros i H; [reflexivity|].
  inversion H; subst.
  unfold crlf_file; cbn [map List.concat]; rewrite <- app_assoc; cbn [app].
  rewrite split_go_crlf_line by assumption.
  cbn [rev app]; f_equal; now apply IH.
Qed.

Lemma split_crlf_file lines :
  Forall (Forall (fun x => x <> CR)) lines ->
  split crlf_re (crlf_file lines) = lines ++ [[]].
Proof.
  intros H; unfold split.
  destruct (crlf_file lines) eqn:E.
  - destruct lines as [|l lines]; [reflexivity|].
    unfold crlf_file in E; cbn in E.
    destruct l; discriminate.
  - rewrite <- E; now apply split_go_crlf_file.
Qed.

(** The loop of [getHeaderInfo] keeps, for each key, the value of the
    last line that matches its pattern. *)
Lemma fold_header_line_last_disturl before l after m d t :
  exec disturl_re l = Some m ->
  (forall line, In line after -> exec disturl_re line = None) ->
  fst (fold_left header_line (before ++ l :: after) (d, t)) = group m 1.
Proof.
  intros E H; rewrite fold_left_app; cbn [fold_left].
  destruct (fold_left header_line before (d, t)) as [d0 t0].
  unfold header_line at 2; rewrite E; cbn [match_length Nat.leb].
  now apply fold_header_line_without_disturl.
Qed.

Lemma fold_header_line_last_target before l after m d t :
  exec target_re l = Some m ->
  (forall line, In line after -> exec target_re line = None) ->
  snd (fold_left header_line (before ++ l :: after) (d, t)) = group m 1.
Proof.
  intros E H; rewrite fold_left_app; cbn [fold_left].
  destruct (fold_left header_line before (d, t)) as [d0 t0].
  unfold header_line at 2; rewrite E; cbn [match_length Nat.leb].
  now apply fold_header_line_without_target.
Qed.

Lemma no_line_breaks_no_cr lines :
  no_line_breaks lines -> Forall (Forall (fun x => x <> CR)) lines.
Proof.
  intros H; eapply Forall_impl; [|exact H].
  intros l Hl; eapply Forall_impl; [|exact Hl]; now intros x [? _].
Qed.

Lemma exec_key_re_empty key : key <> [] -> exec (key_re key) [] = None.
Proof.
  intros Hne; apply exec_none_iff.
  destruct (test (key_re key) []) eqn:T; [|reflexivity].
  apply test_key_re in T; destruct T as (pre & ws1 & v & ws2 & E & _).
  destruct pre; [destruct key; [contradiction|discriminate]|discriminate].
Qed.

(** X12.  With CR LF line ends, a file in which the last line that
    carries [disturl] is a plain line with value [u], and the last line
    that carries [target] is a plain line with value [t], yields the pair
    of [u] and [t], in whichever order the two lines come. *)
Theorem getHeaderInfo_crlf_file h rcFile st lines before_d line_d after_d
        before_t line_t after_t u t :
  no_line_breaks lines ->
  readFileSync h rcFile = Some (crlf_file lines) ->
  lines = before_d ++ line_d :: after_d ->
  plain_key_line (str "disturl") u line_d ->
  (forall line, In line after_d -> ~ key_line (str "disturl") line) ->
  lines = before_t ++ line_t :: after_t ->
  plain_key_line (str "target") t line_t ->
  (forall line, In line after_t -> ~ key_line (str "target") line) ->
  getHeaderInfo h rcFile st = (Ret (Some {| disturl := u; target := t |}), st).
Proof.
  intros Hcr%no_line_breaks_no_cr R Ed Pd Ad Et Pt At.
  rewrite (getHeaderInfo_read _ _ _ _ R); unfold parse_header.
  rewrite (split_crlf_file _ Hcr).
  assert (Kd : str "disturl" <> []) by (intros X; vm_compute in X; discriminate X).
  assert (Kt : str "target" <> []) by (intros X; vm_compute in X; discriminate X).
  destruct (exec_plain_key_line (str "disturl") u line_d eq_refl Kd Pd)
    as (m_d & Xd & Gd).
  destruct (exec_plain_key_line (str "target") t line_t eq_refl Kt Pt)
    as (m_t & Xt & Gt).
  assert (N : forall key line after,
             key <> [] ->
             (forall l, In l after -> ~ key_line key l) ->
             In line (after ++ [[]]) -> exec (key_re key) line = None).
  { intros key line after Hk Ha [Hin|[<-|[]]]%in_app_or.
    - apply exec_none_iff.
      destruct (test (key_re key) line) eqn:T; [|reflexivity].
      apply test_key_re in T; now apply Ha in T.
    - now apply exec_key_re_empty. }
  pose proof (fold_header_line_last_disturl before_d line_d (after_d ++ [[]]) m_d None None Xd
                (fun l H => N (str "disturl") l after_d Kd Ad H)) as Fd.
  pose proof (fold_header_line_last_target before_t line_t (after_t ++ [[]]) m_t None None Xt
                (fun l H => N (str "target") l after_t Kt At H)) as Ft.
  assert (Ld : lines ++ [[]] = before_d ++ line_d :: after_d ++ [[]])
    by (rewrite Ed at 1; rewrite <- app_assoc; reflexivity).
  assert (Lt : lines ++ [[]] = before_t ++ line_t :: after_t ++ [[]])
    by (rewrite Et at 1; rewrite <- app_assoc; reflexivity).
  set (F := fold_left header_line _ (None, None)).
  assert (Fd' : fst F = Some u).
  { rewrite <- Gd, <- Fd.
    apply (f_equal (fun l => fst (fold_left header_line l (None, None)))); exact Ld. }
  assert (Ft' : snd F = Some t).
  { rewrite <- Gt, <- Ft.
    apply (f_equal (fun l => snd (fold_left header_line l (None, None)))); exact Lt. }
  destruct F as [d0 t0]; cbn [fst snd] in Fd', Ft'; now rewrite Fd', Ft'.
Qed.

(** In a file with CR LF line ends, a key that no line carries is absent
    for [getHeaderInfo]. *)
Lemma key_absent_crlf_file key lines :
  key <> [] ->
  no_line_breaks lines ->
  (forall line, In line lines -> ~ key_line key line) ->
  key_absent key (crlf_file lines).
Proof.
  intros Hk Hl%no_line_breaks_no_cr H line.
  rewrite (split_crlf_file _ Hl); intros [Hin|[<-|[]]]%in_app_or.
  - now apply H.
  - intros T%test_key_re.
    pose proof (exec_key_re_empty key Hk) as E.
    apply exec_none_iff in E; congruence.
Qed.

(** C2, where the code departs from the claim.  [getHeaderInfo] cuts
    the file at CR followed by an optional LF.  A file whose lines end in
    LF alone is therefore a single line, on which the disturl pattern
    cannot reach the end of the input: for the file with a disturl line,
    a target line and a runtime line the result is undefined.  The same
    file with CRLF line ends yields the pair. *)
Theorem getHeaderInfo_lf_file_yields_undefined :
  getHeaderInfo
    (host_reading (rc_text [LF] (str "https://example/dist") (str "12.3.4")))
    (str ".yarnrc") initial
  = (Ret None, initial)
  /\ split crlf_re (rc_text [LF] (str "https://example/dist") (str "12.3.4"))
     = [rc_text [LF] (str "https://example/dist") (str "12.3.4")]
  /\ getHeaderInfo
       (host_reading (rc_text [CR; LF] (str "https://example/dist") (str "12.3.4")))
       (str ".yarnrc") initial
     = (Ret (Some {| disturl := str "https://example/dist"; target := str "12.3.4" |}),
        initial).
Proof. repeat split; vm_compute; reflexivity. Qed.

(** ** Installing headers *)

Lemma install_if_missing_run h versions spec st :
  install_if_missing h (node_gyp_cmd h) versions spec st =
    match wanted versions spec with
    | [] => (Ret tt, st)
    | i :: _ =>
        (if install_throws h i
         then Throw (Error_execFileSync (node_gyp_cmd h) (install_args i))
         else Ret tt,
         {| err := err st;
            log := log st ++ [EvExecFileSync (node_gyp_cmd h) (install_args i)] |})
    end.
Proof.
  unfold install_if_missing, wanted, install_throws, cp_execFileSync.
  destruct spec as [i|]; [|reflexivity].
  destruct (set_has versions (target i)); cbn [negb]; [reflexivity|].
  run_m; fold (install_args i).
  destruct (execFileSync h (node_gyp_cmd h) (install_args i)); reflexivity.
Qed.

(** Once yarn has installed node-gyp, the versions are listed and both
    files are read, what is left of [installHeaders] is the two guarded
    installs. *)
Lemma installHeaders_run h st result cl cr :
  sp_error (spawnSync h (str "yarn.cmd") [str "install"] (Some (gyp_cwd h))) = false ->
  sp_status (spawnSync h (str "yarn.cmd") [str "install"] (Some (gyp_cwd h))) = Some 0%Z ->
  execFileSync h (node_gyp_cmd h) [str "list"] = Some result ->
  readFileSync h (local_rc h) = Some cl ->
  readFileSync h (remote_rc h) = Some cr ->
  installHeaders h st =
    (install_if_missing h (node_gyp_cmd h) (installed_versions result) (parse_header cl) ;;
     install_if_missing h (node_gyp_cmd h) (installed_versions result) (parse_header cr))
      (listed h st).
Proof.
  intros E1 E2 L Rl Rr.
  unfold installHeaders, path_join, cp_spawnSync, cp_execFileSync; cbn [all_strings].
  fold (gyp_cwd h) (node_gyp_cmd h) (local_rc h) (remote_rc h).
  unfold bind at 1; cbn [ret].
  unfold bind at 1 2; cbn [emit ret].
  rewrite E1, E2; cbn [Z.eqb orb negb].
  unfold bind at 1; cbn [ret].
  unfold bind at 1 2; cbn [emit ret err log]; rewrite L.
  unfold bind at 1; cbn [ret].
  unfold bind at 1; rewrite (getHeaderInfo_read _ _ _ _ Rl).
  unfold bind at 1; cbn [ret].
  unfold bind at 1; rewrite (getHeaderInfo_read _ _ _ _ Rr).
  rewrite map_id. unfold installed_versions, listed.
  rewrite <- app_assoc; reflexivity.
Qed.

(** What [installHeaders] does once its preparations have gone through:
    the local install when it is wanted, then, unless that one threw,
    the remote install when it is wanted; the error flag stays as it
    was. *)
Lemma installHeaders_trace h st result cl cr :
  sp_error (spawnSync h (str "yarn.cmd") [str "install"] (Some (gyp_cwd h))) = false ->
  sp_status (spawnSync h (str "yarn.cmd") [str "install"] (Some (gyp_cwd h))) = Some 0%Z ->
  execFileSync h (node_gyp_cmd h) [str "list"] = Some result ->
  readFileSync h (local_rc h) = Some cl ->
  readFileSync h (remote_rc h) = Some cr ->
  exists r st',
    installHeaders h st = (r, st')
    /\ err st' = err st
    /\ log st' =
         log (listed h st)
         ++ map (install_event h)
                (wanted (installed_versions result) (parse_header cl)
                 ++ (if existsb (install_throws h)
                          (wanted (installed_versions result) (parse_header cl))
                     then []
                     else wanted (installed_versions result) (parse_header cr))).
Proof.
  intros E1 E2 L Rl Rr.
  rewrite (installHeaders_run h st result cl cr E1 E2 L Rl Rr).
  unfold bind; rewrite install_if_missing_run.
  assert (W : forall spec, wanted (installed_versions result) spec = []
                        \/ exists i, wanted (installed_versions result) spec = [i]).
  { intros [i|]; cbn; [destruct (set_has _ _)|]; eauto. }
  destruct (W (parse_header cl)) as [->|(i & ->)]; cbn [existsb orb app map].
  - rewrite install_if_missing_run.
    destruct (W (parse_header cr)) as [->|(j & ->)]; cbn [map].
    + do 2 eexists; repeat split; now rewrite app_nil_r.
    + do 2 eexists; repeat split.
  - destruct (install_throws h i); cbn [orb map].
    + do 2 eexists; repeat split.
    + rewrite install_if_missing_run.
      destruct (W (parse_header cr)) as [->|(j & ->)]; cbn [map err log].
      * do 2 eexists; repeat split.
      * do 2 eexists; repeat split; cbn [err log]; now rewrite <- app_assoc.
Qed.

(** C8, amended.  Once yarn has installed node-gyp, the installed
    versions have been listed and both header files have been read, the
    install invocations of [installHeaders] are: one for the local spec
    when it is present and its target is not in the installed set, none
    otherwise; then, unless that local invocation threw, one for the
    remote spec when it is present and its target is not in the set, none
    otherwise.  Each invocation carries the disturl and target of its own
    spec.  Whether a spec is wanted does not depend on the other spec, but
    a local install that throws ends the run before the remote one. *)
Theorem installHeaders_installs_each_wanted_spec h st result cl cr :
  sp_error (spawnSync h (str "yarn.cmd") [str "install"] (Some (gyp_cwd h))) = false ->
  sp_status (spawnSync h (str "yarn.cmd") [str "install"] (Some (gyp_cwd h))) = Some 0%Z ->
  execFileSync h (node_gyp_cmd h) [str "list"] = Some result ->
  readFileSync h (local_rc h) = Some cl ->
  readFileSync h (remote_rc h) = Some cr ->
  let versions := installed_versions result in
  (forall spec i, wanted versions spec = [i] <->
                  spec = Some i /\ set_has versions (target i) = false)
  /\ (forall spec, wanted versions spec = [] <->
                   spec = None \/ exists i, spec = Some i /\ set_has versions (target i) = true)
  /\ exists r st',
       installHeaders h st = (r, st')
       /\ log st' =
            log (listed h st)
            ++ map (install_event h)
                   (wanted versions (parse_header cl)
                    ++ (if existsb (install_throws h) (wanted versions (parse_header cl))
                        then []
                        else wanted versions (parse_header cr))).
Proof.
  intros E1 E2 L Rl Rr versions; split; [|split].
  - intros [j|] i; cbn; [destruct (set_has versions (target j)) eqn:S|];
      split; try discriminate; try (intros [? ?]; congruence).
    intros [=->]; auto.
  - intros [j|]; cbn; [destruct (set_has versions (target j)) eqn:S|]; split; auto.
    + intros _; right; eauto.
    + discriminate.
    + intros [|(i & [=->] & ?)]; congruence.
  - destruct (installHeaders_trace h st result cl cr E1 E2 L Rl Rr)
      as (r & st' & E & _ & Hl); eauto.
Qed.

Lemma installHeaders_installs_each_wanted_spec_witness :
  exists r,
    installHeaders host_headers initial =
      (r, {| err := false;
             log := log (listed host_headers initial)
                    ++ [install_event host_headers
                          {| disturl := str "https://example/remote";
                             target := str "12.0.0" |}] |}).
Proof.
  destruct (proj2 (proj2 (installHeaders_installs_each_wanted_spec
              host_headers initial
              (str "gyp info it worked" ++ [LF] ++ str "10.0.0" ++ [LF])
              (rc_text [CR; LF] (str "https://example/dist") (str "10.0.0"))
              (rc_text [CR; LF] (str "https://example/remote") (str "12.0.0"))
              eq_refl eq_refl eq_refl eq_refl eq_refl)))
    as (r & st' & E & Hl).
  exists r; rewrite E; f_equal.
  destruct st' as [e l]; cbn [log] in Hl; subst l.
  vm_compute in E; vm_compute.
  now inversion E.
Defined.

(** Against C8 as stated: the remote spec is present and its target is
    not installed, yet no install is invoked for it, because the local
    install threw first. *)
Lemma remote_install_not_reached_when_local_install_throws :
  wanted (installed_versions (str "gyp info it worked" ++ [LF] ++ str "10.0.0" ++ [LF]))
         (parse_header (rc_text [CR; LF] (str "https://example/remote") (str "12.0.0")))
  = [{| disturl := str "https://example/remote"; target := str "12.0.0" |}]
  /\ installHeaders host_local_fails initial
     = (Throw (Error_execFileSync (node_gyp_cmd host_local_fails)
                 (install_args {| disturl := str "https://example/dist";
                                  target := str "11.0.0" |})),
        {| err := false;
           log := log (listed host_local_fails initial)
                  ++ [install_event host_local_fails
                        {| disturl := str "https://example/dist";
                           target := str "11.0.0" |}] |})
  /\ ~ In (install_event host_local_fails
             {| disturl := str "https://example/remote"; target := str "12.0.0" |})
          (log (snd (installHeaders host_local_fails initial))).
Proof.
  split; [vm_compute; reflexivity|split; [vm_compute; reflexivity|]].
  vm_compute; intros [H|[H|[H|[]]]]; discriminate.
Qed.

(** Against C3 as stated: with the local header file missing,
    [installHeaders] does not go on with an undefined spec; reading the
    file throws and the run ends with status 1. *)
Lemma missing_header_file_throws :
  readFileSync host_missing_rc (local_rc host_missing_rc) = None
  /\ installHeaders host_missing_rc initial
     = (Throw (Error_readFileSync (local_rc host_missing_rc)),
        listed host_missing_rc initial)
  /\ exit_status (fst (run host_missing_rc)) = 1%Z.
Proof. repeat split; vm_compute; reflexivity. Qed.

(** * Further properties of the script *)

(** ** What every run keeps *)

Lemma grows_refl h st : grows h st st.
Proof. split; [auto|]. exists []; split; [now rewrite app_nil_r|constructor]. Qed.

Lemma grows_trans h st1 st2 st3 :
  grows h st1 st2 -> grows h st2 st3 -> grows h st1 st3.
Proof.
  intros [E1 (l1 & L1 & A1)] [E2 (l2 & L2 & A2)]; split; [auto|].
  exists (l1 ++ l2); split; [now rewrite L2, L1, app_assoc|now apply Forall_app].
Qed.

Lemma safe_ret {A} h (a : A) (post : A -> Prop) : post a -> safe h (ret a) post.
Proof. intros P st; cbn; split; [apply grows_refl|exact P]. Qed.

Lemma safe_throw {A} h e (post : A -> Prop) : safe h (throw e) post.
Proof. intros st; cbn; apply grows_refl. Qed.

Lemma safe_bind {A B} h (m : M A) (k : A -> M B) (P : A -> Prop) (Q : B -> Prop) :
  safe h m P -> (forall a, P a -> safe h (k a) Q) -> safe h (bind m k) Q.
Proof.
  intros Hm Hk st; unfold bind; specialize (Hm st).
  destruct (m st) as [[a|e|c] st1]; [|assumption|assumption].
  destruct Hm as [G1 Pa]; specialize (Hk a Pa st1).
  destruct (k a st1) as [[b|e|c] st2]; [|eauto using grows_trans|assumption].
  destruct Hk; eauto using grows_trans.
Qed.

Lemma safe_weaken {A} h (m : M A) (P Q : A -> Prop) :
  safe h m P -> (forall a, P a -> Q a) -> safe h m Q.
Proof.
  intros Hm I st; specialize (Hm st).
  destruct (m st) as [[a|e|c] st1]; [|assumption..].
  destruct Hm; auto.
Qed.

Lemma safe_emit h e : allowed_event h e -> safe h (emit e) (fun _ => True).
Proof.
  intros He st; cbn; split; [|exact I]; split; [auto|].
  exists [e]; split; [reflexivity|now constructor].
Qed.

Lemma safe_set_err h : safe h set_err (fun _ => True).
Proof.
  intros st; cbn; split; [|exact I]; split; [auto|].
  exists []; split; [now rewrite app_nil_r|constructor].
Qed.

Lemma safe_get_err h : safe h get_err (fun _ => True).
Proof. intros st; cbn; split; [apply grows_refl|exact I]. Qed.

Lemma safe_when h b (m : M unit) :
  safe h m (fun _ => True) -> safe h (when b m) (fun _ => True).
Proof. intros Hm; destruct b; [exact Hm|now apply safe_ret]. Qed.

Lemma safe_seq {A B} h (m : M A) (k : M B) (Q : B -> Prop) :
  safe h m (fun _ => True) -> safe h k Q ->
  safe h (bind m (fun _ => k)) Q.
Proof. intros Hm Hk; eapply safe_bind; [exact Hm|auto]. Qed.

Lemma safe_fail h m :
  safe h (console_error m ;; set_err) (fun _ => True).
Proof. apply safe_seq; [now apply safe_emit|apply safe_set_err]. Qed.

Lemma safe_elem h m n : safe h (elem m n) (fun _ => True).
Proof. destruct m; [now apply safe_ret|apply safe_throw]. Qed.

Lemma safe_path_join h segments : safe h (path_join h segments) (fun _ => True).
Proof.
  unfold path_join; destruct (all_strings segments); [now apply safe_ret|apply safe_throw].
Qed.

Lemma safe_node_gate h : safe h (node_gate h) (fun _ => True).
Proof.
  unfold node_gate.
  eapply safe_bind; [apply safe_elem|intros g1 _].
  eapply safe_bind; [apply safe_elem|intros g2 _].
  eapply safe_bind; [apply safe_elem|intros g3 _].
  apply safe_seq; apply safe_when; [apply safe_fail|now apply safe_emit].
Qed.

Lemma safe_yarn_gate h : safe h (yarn_gate h) (fun _ => True).
Proof.
  unfold yarn_gate, cp_execSync.
  eapply safe_bind with (P := fun _ => True).
  - eapply safe_bind; [apply safe_emit; reflexivity|intros _ _].
    destruct (execSync h _); [now apply safe_ret|apply safe_throw].
  - intros out _.
    eapply safe_bind; [apply safe_elem|intros g1 _].
    eapply safe_bind; [apply safe_elem|intros g2 _].
    eapply safe_bind; [apply safe_elem|intros g3 _].
    apply safe_when, safe_fail.
Qed.

Lemma safe_invoker_check h : safe h (invoker_check h) (fun _ => True).
Proof. apply safe_when, safe_fail. Qed.

(** ** Discovery returns what exists *)

Lemma first_existing_sound h paths :
  first_existing h paths = VNull
  \/ exists p, first_existing h paths = VStr p /\ existsSync h p = true.
Proof.
  unfold first_existing; destruct (find _ _) as [p|] eqn:F; [right|now left].
  apply find_some in F; destruct F; eauto.
Qed.

Lemma findAvailableVSPathForVersion_sound h root version st :
  exists v,
    findAvailableVSPathForVersion h root version st = (Ret v, st)
    /\ (v = VNull \/ exists p, v = VStr p /\ existsSync h p = true).
Proof.
  unfold findAvailableVSPathForVersion.
  destruct (negb (truthy root)); [exists VNull; split; [reflexivity|now left]|].
  rewrite vsTypes_loop_find; eexists; split; [reflexivity|apply first_existing_sound].
Qed.

Lemma truthy_nonempty p : truthy (VStr p) = true -> p <> [].
Proof. destruct p; [discriminate|discriminate]. Qed.

Lemma roots_loop_sound h version : forall roots st,
  exists o,
    roots_loop h version roots st = (Ret o, st)
    /\ (o = None \/ exists p, o = Some (VStr p) /\ p <> [] /\ existsSync h p = true).
Proof.
  induction roots as [|root roots IH]; intros st.
  - exists None; split; [reflexivity|now left].
  - cbn [roots_loop]; unfold bind.
    destruct (findAvailableVSPathForVersion_sound h root version st)
      as (v & -> & [->|(p & -> & Hp)]).
    + cbn [truthy]; apply IH.
    + destruct (truthy (VStr p)) eqn:T; [|apply IH].
      eexists; split; [reflexivity|right].
      exists p; auto using truthy_nonempty.
Qed.

Lemma versions_loop_sound h : forall versions st,
  exists v,
    versions_loop h versions st = (Ret v, st) /\ existing_or_null h v.
Proof.
  induction versions as [|version versions IH]; intros st.
  - exists VNull; split; [reflexivity|now left].
  - cbn [versions_loop].
    destruct (truthy _ && existsSync h _) eqn:T.
    + apply andb_prop in T; destruct T as [T X].
      eexists; split; [reflexivity|right].
      destruct (process_env h _) as [| |p]; try discriminate.
      exists p; auto using truthy_nonempty.
    + unfold bind.
      destruct (roots_loop_sound h version
                  [process_env h (str "ProgramFiles");
                   process_env h (str "ProgramFiles(x86)")] st)
        as (o & -> & [->|(q & -> & Hq)]); [apply IH|].
      eexists; split; [reflexivity|right; eauto].
Qed.

(** X11.  Toolchain discovery never throws and leaves the state as it
    was; what it returns is [null] or a non-empty path that exists, be it
    an override or a directory under a Program Files root. *)
Theorem findSupportedVisualStudioVersion_returns_existing_path h st :
  exists v,
    findSupportedVisualStudioVersion h st = (Ret v, st) /\ existing_or_null h v.
Proof. apply versions_loop_sound. Qed.

Lemma findSupportedVisualStudioVersion_returns_existing_path_witness :
  existing_or_null host_vs
    (VStr (str "C:\Program Files\Microsoft Visual Studio\2022\Enterprise")).
Proof.
  destruct (findSupportedVisualStudioVersion_returns_existing_path host_vs initial)
    as (v & E & Hv).
  vm_compute in E; injection E as <-; exact Hv.
Defined.

Lemma safe_discovery h :
  safe h (findSupportedVisualStudioVersion h) (existing_or_null h).
Proof.
  intros st.
  destruct (versions_loop_sound h [str "2022"; str "2019"; str "2017"] st)
    as (v & E & Hv).
  unfold findSupportedVisualStudioVersion; rewrite E; split; [apply grows_refl|exact Hv].
Qed.

Lemma safe_let {A B} h (a : A) (k : A -> M B) (Q : B -> Prop) :
  safe h (k a) Q -> safe h (bind (ret a) k) Q.
Proof. intros H st; exact (H st). Qed.

Lemma safe_enableSpectreMode h v :
  existing_or_null h v -> safe h (enableSpectreMode h v) (fun _ => True).
Proof.
  intros [->|(p & -> & Hne & Hp)]; unfold enableSpectreMode, path_join;
    cbn [all_strings]; [apply safe_throw|].
  apply safe_let.
  fold (vcvarsall h p); fold spectre_arg.
  destruct (existsSync h (vcvarsall h p)) eqn:X; cbn [negb];
    [|now apply safe_emit].
  unfold cp_spawnSync.
  eapply safe_bind with (P := fun _ => True).
  - apply safe_seq; [apply safe_emit|now apply safe_ret].
    right; exists p; auto.
  - intros proc _; destruct (sp_status proc); [|now apply safe_ret].
    apply safe_when; now apply safe_emit.
Qed.

Lemma safe_getHeaderInfo h rcFile : safe h (getHeaderInfo h rcFile) (fun _ => True).
Proof.
  unfold getHeaderInfo, fs_readFileSync.
  eapply safe_bind with (P := fun _ => True).
  - destruct (readFileSync h rcFile); [now apply safe_ret|apply safe_throw].
  - intros content _.
    destruct (fold_left _ _ _) as [[d|] [t|]]; now apply safe_ret.
Qed.

Lemma safe_cp_execFileSync h args :
  args = [str "list"] \/ (exists i, args = install_args i) ->
  safe h (cp_execFileSync h (node_gyp_cmd h) args) (fun _ => True).
Proof.
  intros Ha; unfold cp_execFileSync.
  eapply safe_bind; [apply safe_emit; split; [reflexivity|exact Ha]|intros _ _].
  destruct (execFileSync h _ _); [now apply safe_ret|apply safe_throw].
Qed.

Lemma safe_install_if_missing h versions spec :
  safe h (install_if_missing h (node_gyp_cmd h) versions spec) (fun _ => True).
Proof.
  unfold install_if_missing.
  destruct spec as [i|]; [|now apply safe_ret].
  destruct (negb _); [|now apply safe_ret].
  apply safe_seq; [|now apply safe_ret].
  apply safe_cp_execFileSync; right; exists i; reflexivity.
Qed.

Lemma safe_installHeaders h : safe h (installHeaders h) (fun _ => True).
Proof.
  unfold installHeaders, path_join, cp_spawnSync; cbn [all_strings].
  fold (gyp_cwd h) (node_gyp_cmd h) (local_rc h) (remote_rc h).
  apply safe_let.
  eapply safe_bind with (P := fun _ => True).
  { apply safe_seq; [apply safe_emit; left; auto|now apply safe_ret]. }
  intros yarnResult _.
  destruct (sp_error yarnResult || _); [apply safe_fail|].
  apply safe_let.
  eapply safe_bind; [apply safe_cp_execFileSync; now left|intros result _].
  apply safe_let.
  eapply safe_bind; [apply safe_getHeaderInfo|intros l _].
  apply safe_let.
  eapply safe_bind; [apply safe_getHeaderInfo|intros r _].
  rewrite map_id; apply safe_seq; apply safe_install_if_missing.
Qed.

Lemma safe_windows_branch h : safe h (windows_branch h) (fun _ => True).
Proof.
  unfold windows_branch; destruct (streq _ _); [|now apply safe_ret].
  eapply safe_bind; [apply safe_discovery|intros v Hv].
  apply safe_seq; [apply safe_when, safe_fail|].
  apply safe_seq; [now apply safe_enableSpectreMode|].
  eapply safe_bind; [apply safe_get_err|intros e _].
  apply safe_when, safe_installHeaders.
Qed.

Lemma ends_well_final_check h st : ends_well h st (final_check st).
Proof.
  unfold final_check, get_err, bind, console_error, emit, process_exit.
  destruct (err st) eqn:E; cbn [fst snd].
  - split; [split; [auto|]|split; [discriminate|]].
    + exists [ConsoleError MsgBlank]; split; [reflexivity|repeat constructor].
    + intros c0 [= <-]; auto.
  - split; [apply grows_refl|split; [auto|discriminate]].
Qed.

Lemma ends_well_bind {A} h (m : M A) (k : A -> M unit) :
  safe h m (fun _ => True) ->
  (forall a st, ends_well h st (k a st)) ->
  forall st, ends_well h st (bind m k st).
Proof.
  intros Hm Hk st; unfold bind; specialize (Hm st).
  destruct (m st) as [[a|e|c] st1]; [|split; [exact Hm|split; [|intros c]; discriminate]|contradiction].
  destruct Hm as [G _]; destruct (Hk a st1) as (G' & R & X).
  split; [eauto using grows_trans|auto].
Qed.

Lemma ends_well_script h st : ends_well h st (script h st).
Proof.
  unfold script.
  apply ends_well_bind; [apply safe_node_gate|intros _].
  apply ends_well_bind; [apply safe_yarn_gate|intros _].
  apply ends_well_bind; [apply safe_invoker_check|intros _].
  apply ends_well_bind; [apply safe_windows_branch|intros _].
  apply ends_well_final_check.
Qed.

(** X5.  However a run ends, its status follows the error flag: it
    ends normally (status 0) only with the flag clear, it calls
    [process.exit] only with status 1 and the flag set, and the status is
    always 0 or 1 (1 also for an uncaught exception). *)
Theorem run_exit_status_follows_err h :
  (fst (run h) = Ret tt -> err (snd (run h)) = false)
  /\ (forall c, fst (run h) = Exit c -> c = 1%Z /\ err (snd (run h)) = true)
  /\ (exit_status (fst (run h)) = 0%Z \/ exit_status (fst (run h)) = 1%Z)
  /\ (exit_status (fst (run h)) = 0%Z <->
      fst (run h) = Ret tt /\ err (snd (run h)) = false).
Proof.
  destruct (ends_well_script h initial) as (_ & R & X); fold (run h) in R, X.
  split; [exact R|split; [exact X|]].
  destruct (fst (run h)) as [[]|e|c] eqn:F; cbn [exit_status].
  - split; [now left|]; split; auto.
  - split; [now right|]; split; [discriminate|intros [? _]; discriminate].
  - destruct (X c eq_refl) as [-> _].
    split; [now right|]; split; [discriminate|intros [? _]; discriminate].
Qed.

(** X6.  Everything a run prints or starts is allowed: the only
    processes are [yarn -v], the existing setup script of an existing
    toolchain with the Spectre argument, [yarn.cmd install] in the gyp
    directory, and node-gyp with [list] or with the install arguments of
    a header spec. *)
Theorem run_only_starts_allowed_processes h e :
  In e (log (snd (run h))) -> allowed_event h e.
Proof.
  destruct (ends_well_script h initial) as ((_ & l & L & A) & _); fold (run h) in L.
  rewrite L; cbn [initial log app]; intros Hin.
  now apply (proj1 (Forall_forall _ _) A).
Qed.

(** X7.  No part of the script clears the error flag: once it is set
    it is still set after each gate, after the Windows branch, after
    [installHeaders] and at the end of the script. *)
Theorem err_is_never_cleared h st :
  err st = true ->
  err (snd (node_gate h st)) = true
  /\ err (snd (yarn_gate h st)) = true
  /\ err (snd (invoker_check h st)) = true
  /\ err (snd (windows_branch h st)) = true
  /\ err (snd (installHeaders h st)) = true
  /\ err (snd (script h st)) = true.
Proof.
  intros E.
  assert (S : forall A (m : M A), safe h m (fun _ => True) -> err (snd (m st)) = true).
  { intros A m Hm; specialize (Hm st).
    destruct (m st) as [[a|x|c] st']; cbn [snd];
      [destruct Hm as [[G _] _]|destruct Hm as [G _]|contradiction]; auto. }
  split; [apply S, safe_node_gate|].
  split; [apply S, safe_yarn_gate|].
  split; [apply S, safe_invoker_check|].
  split; [apply S, safe_windows_branch|].
  split; [apply S, safe_installHeaders|].
  destruct (ends_well_script h st) as ((G & _) & _); auto.
Qed.

Lemma run_only_starts_allowed_processes_witness :
  allowed_event host_headers
    (install_event host_headers
       {| disturl := str "https://example/remote"; target := str "12.0.0" |}).
Proof.
  apply (run_only_starts_allowed_processes host_headers).
  vm_compute; do 4 right; left; reflexivity.
Defined.

Lemma err_is_never_cleared_witness :
  err (snd (script host_headers failed_state)) = true.
Proof.
  apply (err_is_never_cleared host_headers failed_state eq_refl).
Defined.

(** ** Version strings that do not parse *)

Lemma steps_plus_inv p i s i' s' :
  steps (Plus p) i s i' s' ->
  exists a, a <> [] /\ Forall (fun x => p x = true) a /\ s = a ++ s'.
Proof.
  inversion 1 as [| | | | |? x ? s0 ? ? Px Hs| | | | | | | |]; subst.
  apply steps_star_inv in Hs; destruct Hs as (a & Ha & -> & _).
  exists (x :: a); repeat split; [discriminate|now constructor].
Qed.

Lemma steps_bol_inv i s i' s' : steps Bol i s i' s' -> i = 0 /\ s' = s.
Proof. inversion 1; auto. Qed.

Lemma steps_plus_run p a i s :
  a <> [] -> Forall (fun x => p x = true) a ->
  steps (Plus p) i (a ++ s) (i + List.length a) s.
Proof.
  intros Hne Ha; destruct a as [|x a]; [contradiction|].
  inversion Ha; subst; cbn [app List.length].
  apply steps_plus; [assumption|].
  replace (i + S (List.length a)) with (S i + List.length a) by lia.
  now apply steps_star_run.
Qed.

(** The version pattern finds a match exactly in the texts that start
    with [major.minor.patch]. *)
Lemma test_version_re s : test version_re s = true <-> version_prefixed s.
Proof.
  rewrite test_steps; unfold version_prefixed, version_re; cbn [seq]; split.
  - intros (pre & rest & i' & s' & -> & H).
    apply steps_seq_inv in H; destruct H as (i0 & s0 & [Z ->]%steps_bol_inv & H).
    destruct pre; [|discriminate]; clear Z; cbn [app].
    apply steps_seq_inv in H; destruct H as (i1 & s1 & H1 & H).
    apply steps_group_inv, steps_plus_inv in H1; destruct H1 as (a & Na & Da & ->).
    apply steps_seq_inv in H; destruct H as (i2 & s2 & H2 & H).
    apply steps_chr_inv in H2; destruct H2 as (d & Hd & ->).
    apply (lit_inv "." 46%N d eq_refl) in Hd; subst d.
    apply steps_seq_inv in H; destruct H as (i3 & s3 & H3 & H).
    apply steps_group_inv, steps_plus_inv in H3; destruct H3 as (b & Nb & Db & ->).
    apply steps_seq_inv in H; destruct H as (i4 & s4 & H4 & H).
    apply steps_chr_inv in H4; destruct H4 as (d & Hd & ->).
    apply (lit_inv "." 46%N d eq_refl) in Hd; subst d.
    apply steps_group_inv, steps_plus_inv in H; destruct H as (c & Nc & Dc & ->).
    exists a, b, c, s'; repeat split; auto.
  - intros (a & b & c & rest & [Na Da] & [Nb Db] & [Nc Dc] & ->).
    exists [], (a ++ str "." ++ b ++ str "." ++ c ++ rest); do 2 eexists.
    split; [reflexivity|].
    eapply steps_seq; [apply steps_bol|].
    eapply steps_seq; [apply steps_group, steps_plus_run; assumption|].
    eapply steps_seq; [apply (steps_chr (lit ".")); reflexivity|].
    eapply steps_seq; [apply steps_group, steps_plus_run; assumption|].
    eapply steps_seq; [apply (steps_chr (lit ".")); reflexivity|].
    apply steps_group, steps_plus_run; assumption.
Qed.

Lemma exec_version_re_none s : ~ version_prefixed s -> exec version_re s = None.
Proof.
  intros H; apply exec_none_iff.
  destruct (test version_re s) eqn:T; [|reflexivity].
  now apply test_version_re in T.
Qed.

Lemma exec_version_re_some s :
  version_prefixed s -> exists m, exec version_re s = Some m.
Proof.
  intros H%test_version_re; unfold test in H.
  destruct (exec version_re s); [eauto|discriminate].
Qed.

(** X1.  When the node.js version does not start with
    [major.minor.patch] the pattern finds nothing and reading the first
    capture throws a TypeError: the gate throws with the state untouched
    and the whole run ends there, before any check has printed anything.
    When the version has that form the gate returns normally. *)
Theorem node_gate_throws_on_unparsed_version h :
  (~ version_prefixed (versions_node h) ->
   (forall st, node_gate h st = (Throw TypeError_property_of_null, st))
   /\ run h = (Throw TypeError_property_of_null, initial))
  /\ (version_prefixed (versions_node h) ->
      forall st, exists st', node_gate h st = (Ret tt, st')).
Proof.
  split.
  - intros H%exec_version_re_none.
    assert (G : forall st, node_gate h st = (Throw TypeError_property_of_null, st))
      by (intros st; unfold node_gate; now rewrite H).
    split; [exact G|].
    unfold run, script, bind; now rewrite G.
  - intros (m & E)%exec_version_re_some st.
    rewrite (node_gate_run h st m E); eauto.
Qed.

Lemma v_prefix_not_a_version : ~ version_prefixed (str "v16.14.2").
Proof. intros H%test_version_re; vm_compute in H; discriminate. Qed.

Lemma node_gate_throws_on_unparsed_version_witness :
  ~ version_prefixed (versions_node host_v_prefix)
  /\ run host_v_prefix
     = (Throw TypeError_property_of_null, initial).
Proof.
  split; [exact v_prefix_not_a_version|].
  apply (proj1 (node_gate_throws_on_unparsed_version
                  host_v_prefix)).
  exact v_prefix_not_a_version.
Defined.

(** X2.  The yarn gate throws in two cases, each time after the query
    has been started and with the error flag untouched: when [yarn -v]
    itself fails, with that failure, and when its trimmed output does not
    start with [major.minor.patch], with a TypeError.  Otherwise it
    returns normally. *)
Theorem yarn_gate_throws_without_version h st :
  (execSync h (str "yarn -v") = None ->
   yarn_gate h st =
     (Throw (Error_execSync (str "yarn -v")),
      {| err := err st; log := log st ++ [EvExecSync (str "yarn -v")] |}))
  /\ (forall out,
        execSync h (str "yarn -v") = Some out ->
        ~ version_prefixed (trim out) ->
        yarn_gate h st =
          (Throw TypeError_property_of_null,
           {| err := err st; log := log st ++ [EvExecSync (str "yarn -v")] |}))
  /\ (forall out,
        execSync h (str "yarn -v") = Some out ->
        version_prefixed (trim out) ->
        exists st', yarn_gate h st = (Ret tt, st')).
Proof.
  split; [|split].
  - intros E; unfold yarn_gate, cp_execSync; run_m; now rewrite E.
  - intros out E H%exec_version_re_none.
    unfold yarn_gate, cp_execSync; run_m; now rewrite E, H.
  - intros out E (m & X)%exec_version_re_some.
    rewrite (yarn_gate_run h st out m E X); eauto.
Qed.

Lemma yarn_gate_throws_without_version_witness :
  execSync (host_reading []) (str "yarn -v") = None
  /\ yarn_gate (host_reading []) initial
     = (Throw (Error_execSync (str "yarn -v")),
        {| err := false; log := [EvExecSync (str "yarn -v")] |}).
Proof.
  split; [reflexivity|].
  apply (proj1 (yarn_gate_throws_without_version (host_reading []) initial)).
  reflexivity.
Defined.

(** ** White space around the version of yarn *)

Lemma digit_not_space x : digit x = true -> space x = false.
Proof.
  unfold digit; intros [L U]%andb_prop.
  apply N.leb_le in L, U.
  unfold space, line_terminator.
  repeat match goal with
         | |- context [N.eqb x ?k] =>
             destruct (N.eqb_spec x k); [lia|]
         | |- context [N.leb ?a ?b] =>
             destruct (N.leb_spec a b); [try lia|try lia]
         end; reflexivity.
Qed.

Lemma trimStart_blanks ws s :
  Forall (fun x => space x = true) ws -> trimStart (ws ++ s) = trimStart s.
Proof.
  induction 1 as [|x ws Hx _ IH]; [reflexivity|].
  cbn [app trimStart]; now rewrite Hx.
Qed.

Lemma trimStart_stops s : stops space s -> trimStart s = s.
Proof. destruct s as [|x s]; [reflexivity|]; cbn; now intros ->. Qed.

(** [trim] removes the blanks around a text that neither starts nor
    ends with one. *)
Lemma trim_around ws1 s ws2 :
  Forall (fun x => space x = true) ws1 ->
  Forall (fun x => space x = true) ws2 ->
  stops space s -> stops space (rev s) -> s <> [] ->
  trim (ws1 ++ s ++ ws2) = s.
Proof.
  intros W1 W2 Hs Hr Hne; unfold trim.
  rewrite trimStart_blanks by assumption.
  rewrite (trimStart_stops (s ++ ws2)) by (destruct s; [contradiction|exact Hs]).
  rewrite rev_app_distr, trimStart_blanks by now apply Forall_rev.
  now rewrite trimStart_stops, rev_involutive.
Qed.

Lemma digits_stops_space a s : digits a -> stops space (a ++ s).
Proof.
  intros [Na Da]; destruct a as [|x a]; [contradiction|].
  inversion Da; subst; cbn; now apply digit_not_space.
Qed.

Lemma version_text_trim ws1 a b c ws2 :
  Forall (fun x => space x = true) ws1 ->
  Forall (fun x => space x = true) ws2 ->
  digits a -> digits b -> digits c ->
  trim (ws1 ++ (a ++ str "." ++ b ++ str "." ++ c) ++ ws2)
  = a ++ str "." ++ b ++ str "." ++ c.
Proof.
  intros W1 W2 Ha Hb Hc; apply trim_around; try assumption.
  - now apply digits_stops_space.
  - rewrite !rev_app_distr, <- !app_assoc.
    apply digits_stops_space; destruct Hc as [Nc Dc]; split.
    + intros E; apply Nc; rewrite <- (rev_involutive c), E; reflexivity.
    + now apply Forall_rev.
  - destruct Ha as [Na _]; destruct a; [contradiction|discriminate].
Qed.

(** X3.  Blanks and line ends around the version that [yarn -v]
    prints do not matter: the gate decides on the three numbers alone. *)
Theorem yarn_gate_ignores_surrounding_blanks h st ws1 a b c ws2 :
  Forall (fun x => space x = true) ws1 ->
  Forall (fun x => space x = true) ws2 ->
  digits a -> digits b -> digits c ->
  execSync h (str "yarn -v")
    = Some (ws1 ++ (a ++ str "." ++ b ++ str "." ++ c) ++ ws2) ->
  yarn_gate h st =
    (Ret tt,
     if yarn_fails (Some (decimal a)) (Some (decimal b)) (Some (decimal c))
     then {| err := true;
             log := log st ++ [EvExecSync (str "yarn -v"); ConsoleError MsgYarnVersion] |}
     else {| err := err st; log := log st ++ [EvExecSync (str "yarn -v")] |}).
Proof.
  intros W1 W2 Ha Hb Hc E.
  destruct (exec_version_re a b c [] Ha Hb Hc I) as (m & X & G1 & G2 & G3).
  rewrite app_nil_r in X.
  rewrite <- (version_text_trim ws1 a b c ws2 W1 W2 Ha Hb Hc) in X.
  rewrite (yarn_gate_run h st _ m E X), G1, G2, G3, !parseInt_digits by assumption.
  reflexivity.
Qed.

Lemma yarn_gate_ignores_surrounding_blanks_witness :
  yarn_gate host_yarn initial
  = (Ret tt, {| err := false; log := [EvExecSync (str "yarn -v")] |}).
Proof.
  assert (Ha : digits (str "1")) by (split; [discriminate|repeat constructor]).
  assert (Hb : digits (str "22")) by (split; [discriminate|repeat constructor]).
  assert (Hc : digits (str "19")) by (split; [discriminate|repeat constructor]).
  assert (W : Forall (fun x => space x = true) [LF]) by (repeat constructor).
  apply (yarn_gate_ignores_surrounding_blanks host_yarn initial
           [] (str "1") (str "22") (str "19") [LF]
           (Forall_nil _) W Ha Hb Hc eq_refl).
Defined.

(** ** Whole runs *)

(** The three gates, run from the start, and what follows them. *)
Lemma gates_run h m out m' B (k : M B) :
  exec version_re (versions_node h) = Some m ->
  execSync h (str "yarn -v") = Some out ->
  exec version_re (trim out) = Some m' ->
  let node_old := node_fails (parseInt (group m 1)) (parseInt (group m 2)) in
  let node_new := num_ge (parseInt (group m 1)) 17 in
  let yarn_bad := yarn_fails (parseInt (group m' 1)) (parseInt (group m' 2))
                             (parseInt (group m' 3)) in
  let not_yarn := negb (test yarn_re (to_string (process_env h (str "npm_execpath")))) in
  (node_gate h ;; yarn_gate h ;; invoker_check h ;; k) initial
  = k {| err := node_old || yarn_bad || not_yarn;
         log := gate_events node_old node_new yarn_bad not_yarn |}.
Proof.
  intros N Y Y'; cbv zeta.
  rewrite (bind_ret _ _ _ _ _ (node_gate_run h initial m N)).
  rewrite (bind_ret _ _ _ _ _ (yarn_gate_run h _ out m' Y Y')).
  unfold bind; rewrite invoker_check_run; unfold gate_events.
  destruct (test yarn_re _), (yarn_fails _ _ _), (node_fails _ _), (num_ge _ 17);
    reflexivity.
Qed.

(** X4.  Off Windows, when both versions parse, the run consists of
    the three gates and the final check: every gate that fails prints its
    line, in the order node.js, yarn, invoker; no toolchain is looked for
    and nothing but [yarn -v] is started; the run exits with status 1
    after a blank line iff at least one gate failed, and ends normally
    otherwise. *)
Theorem run_off_windows_reports_every_failed_gate h m out m' :
  streq (platform h) (str "win32") = false ->
  exec version_re (versions_node h) = Some m ->
  execSync h (str "yarn -v") = Some out ->
  exec version_re (trim out) = Some m' ->
  let node_old := node_fails (parseInt (group m 1)) (parseInt (group m 2)) in
  let node_new := num_ge (parseInt (group m 1)) 17 in
  let yarn_bad := yarn_fails (parseInt (group m' 1)) (parseInt (group m' 2))
                             (parseInt (group m' 3)) in
  let not_yarn := negb (test yarn_re (to_string (process_env h (str "npm_execpath")))) in
  let failed := node_old || yarn_bad || not_yarn in
  run h =
    (if failed then Exit 1%Z else Ret tt,
     {| err := failed;
        log := gate_events node_old node_new yarn_bad not_yarn
               ++ (if failed then [ConsoleError MsgBlank] else []) |}).
Proof.
  intros W N Y Y'; cbv zeta.
  unfold run, script; rewrite (gates_run h m out m' _ _ N Y Y').
  unfold windows_branch; rewrite W.
  unfold bind, final_check, get_err, bind, console_error, emit, process_exit, ret;
    cbn [err log].
  destruct (_ || _ || _); [reflexivity|now rewrite app_nil_r].
Qed.

Lemma run_off_windows_reports_every_failed_gate_witness :
  run host_linux_all_wrong
  = (Exit 1%Z,
     {| err := true;
        log := [ConsoleError MsgNodeVersion; EvExecSync (str "yarn -v");
                ConsoleError MsgYarnVersion; ConsoleError MsgUseYarn;
                ConsoleError MsgBlank] |}).
Proof.
  destruct (exec version_re (versions_node host_linux_all_wrong)) as [m|] eqn:N;
    [|vm_compute in N; discriminate].
  destruct (exec version_re (trim (str "2.4.3" ++ [LF]))) as [m'|] eqn:Y;
    [|vm_compute in Y; discriminate].
  rewrite (run_off_windows_reports_every_failed_gate host_linux_all_wrong m
             (str "2.4.3" ++ [LF]) m' eq_refl N eq_refl Y).
  vm_compute in N; injection N as <-.
  vm_compute in Y; injection Y as <-.
  reflexivity.
Defined.

Lemma enableSpectreMode_run h vsPath st :
  enableSpectreMode h (VStr vsPath) st
  = (Ret tt, {| err := err st; log := log st ++ spectre_events h vsPath |}).
Proof.
  unfold enableSpectreMode, path_join, cp_spawnSync, spectre_events;
    cbn [all_strings]; run_m.
  fold (vcvarsall h vsPath); fold spectre_arg.
  destruct (existsSync h (vcvarsall h vsPath)); cbn [negb]; [|reflexivity].
  destruct (sp_status _) as [z|]; [destruct (Z.eqb z 0)|]; cbn [negb];
    cbn [log err]; rewrite <- ?app_assoc; reflexivity.
Qed.

(** On Windows with a toolchain, once the error flag is set the branch
    only enables the Spectre mode. *)
Lemma windows_branch_after_failure h vsPath st :
  streq (platform h) (str "win32") = true ->
  fst (findSupportedVisualStudioVersion h initial) = Ret (VStr vsPath) ->
  err st = true ->
  windows_branch h st
  = (Ret tt, {| err := true; log := log st ++ spectre_events h vsPath |}).
Proof.
  intros W D F.
  destruct (versions_loop_sound h [str "2022"; str "2019"; str "2017"] initial)
    as (v & E & [->|(p & -> & Hne & _)]);
    fold (findSupportedVisualStudioVersion h) in E; rewrite E in D; cbn [fst] in D;
    [discriminate|injection D as ->].
  unfold windows_branch; rewrite W.
  rewrite (bind_ret _ _ st (VStr vsPath) st)
    by (rewrite findSupportedVisualStudioVersion_pure, E; reflexivity).
  destruct vsPath as [|x p]; [contradiction|]; cbn [truthy negb when].
  rewrite (bind_ret (ret tt) _ st tt st eq_refl).
  rewrite (bind_ret _ _ _ _ _ (enableSpectreMode_run h (x :: p) st)).
  unfold bind, get_err, when, ret; cbn [err log negb]; now rewrite F.
Qed.

(** X8.  On Windows with a toolchain, when a gate has failed the
    Spectre mode is still enabled but [installHeaders] is not run: after
    the lines of the gates and the events of [enableSpectreMode] the run
    prints the blank line and exits with status 1. *)
Theorem failed_gate_skips_header_install h m out m' vsPath :
  streq (platform h) (str "win32") = true ->
  exec version_re (versions_node h) = Some m ->
  execSync h (str "yarn -v") = Some out ->
  exec version_re (trim out) = Some m' ->
  fst (findSupportedVisualStudioVersion h initial) = Ret (VStr vsPath) ->
  let node_old := node_fails (parseInt (group m 1)) (parseInt (group m 2)) in
  let node_new := num_ge (parseInt (group m 1)) 17 in
  let yarn_bad := yarn_fails (parseInt (group m' 1)) (parseInt (group m' 2))
                             (parseInt (group m' 3)) in
  let not_yarn := negb (test yarn_re (to_string (process_env h (str "npm_execpath")))) in
  node_old || yarn_bad || not_yarn = true ->
  run h =
    (Exit 1%Z,
     {| err := true;
        log := gate_events node_old node_new yarn_bad not_yarn
               ++ spectre_events h vsPath
               ++ [ConsoleError MsgBlank] |}).
Proof.
  intros W N Y Y' D; cbv zeta; intros F.
  unfold run, script; rewrite (gates_run h m out m' _ _ N Y Y'), F.
  rewrite (bind_ret _ _ _ _ _
             (windows_branch_after_failure h vsPath {| err := true; log := _ |}
                W D eq_refl)).
  unfold final_check, get_err, bind, console_error, emit, process_exit, ret;
    cbn [err log].
  now rewrite <- app_assoc.
Qed.

Lemma failed_gate_skips_header_install_witness :
  run host_vs_npm
  = (Exit 1%Z,
     {| err := true;
        log := [EvExecSync (str "yarn -v"); ConsoleError MsgUseYarn;
                EvSpawnSync
                  (str "C:\Program Files\Microsoft Visual Studio\2022\Enterprise\VC\Auxiliary\Build\vcvarsall.bat")
                  [spectre_arg] None;
                ConsoleError MsgBlank] |}).
Proof.
  destruct (exec version_re (versions_node host_vs_npm)) as [m|] eqn:N;
    [|vm_compute in N; discriminate].
  destruct (exec version_re (trim (str "1.22.19" ++ [LF]))) as [m'|] eqn:Y;
    [|vm_compute in Y; discriminate].
  rewrite (failed_gate_skips_header_install host_vs_npm m (str "1.22.19" ++ [LF]) m'
             (str "C:\Program Files\Microsoft Visual Studio\2022\Enterprise")
             eq_refl N eq_refl Y eq_refl).
  - vm_compute in N; injection N as <-.
    vm_compute in Y; injection Y as <-.
    reflexivity.
  - vm_compute in N; injection N as <-.
    vm_compute in Y; injection Y as <-.
    reflexivity.
Defined.

(** ** Installing headers: failures on the way *)

Lemma getHeaderInfo_unreadable h rcFile st :
  readFileSync h rcFile = None ->
  getHeaderInfo h rcFile st = (Throw (Error_readFileSync rcFile), st).
Proof. intros E; unfold getHeaderInfo, fs_readFileSync, bind; now rewrite E. Qed.

Lemma installHeaders_start h st :
  installHeaders h st =
    let r := spawnSync h (str "yarn.cmd") [str "install"] (Some (gyp_cwd h)) in
    let st1 := {| err := err st;
                  log := log st ++ [EvSpawnSync (str "yarn.cmd") [str "install"]
                                      (Some (gyp_cwd h))] |} in
    if yarn_install_failed r
    then (Ret tt, {| err := true; log := log st1 ++ [ConsoleError MsgGypFailed] |})
    else
      match execFileSync h (node_gyp_cmd h) [str "list"] with
      | None => (Throw (Error_execFileSync (node_gyp_cmd h) [str "list"]), listed h st)
      | Some result =>
          match readFileSync h (local_rc h) with
          | None => (Throw (Error_readFileSync (local_rc h)), listed h st)
          | Some cl =>
              match readFileSync h (remote_rc h) with
              | None => (Throw (Error_readFileSync (remote_rc h)), listed h st)
              | Some cr =>
                  (install_if_missing h (node_gyp_cmd h) (installed_versions result)
                     (parse_header cl) ;;
                   install_if_missing h (node_gyp_cmd h) (installed_versions result)
                     (parse_header cr)) (listed h st)
              end
          end
      end.
Proof.
  cbv zeta.
  unfold installHeaders, path_join, cp_spawnSync, cp_execFileSync, yarn_install_failed;
    cbn [all_strings].
  fold (gyp_cwd h) (node_gyp_cmd h) (local_rc h) (remote_rc h).
  unfold bind at 1; cbn [ret].
  unfold bind at 1 2; cbn [emit ret].
  destruct (sp_error _ || _); [reflexivity|].
  unfold bind at 1; cbn [ret].
  unfold bind at 1 2; cbn [emit ret err log].
  unfold listed; rewrite <- app_assoc; cbn [app].
  destruct (execFileSync h (node_gyp_cmd h) [str "list"]) as [result|]; [|reflexivity].
  unfold bind at 1; cbn [ret].
  unfold bind at 1.
  destruct (readFileSync h (local_rc h)) as [cl|] eqn:Rl;
    [rewrite (getHeaderInfo_read _ _ _ _ Rl)
    |now rewrite (getHeaderInfo_unreadable _ _ _ Rl)].
  unfold bind at 1; cbn [ret].
  unfold bind at 1.
  destruct (readFileSync h (remote_rc h)) as [cr|] eqn:Rr;
    [rewrite (getHeaderInfo_read _ _ _ _ Rr)
    |now rewrite (getHeaderInfo_unreadable _ _ _ Rr)].
  now rewrite map_id.
Qed.

Lemma install_if_missing_err h versions spec st :
  err (snd (install_if_missing h (node_gyp_cmd h) versions spec st)) = err st.
Proof.
  rewrite install_if_missing_run.
  destruct (wanted versions spec); reflexivity.
Qed.

(** X9.  [installHeaders] sets the error flag exactly when the yarn
    install of node-gyp failed, that is unless [error] is unset and
    [status] is 0.  On failure it prints its line, sets the flag and
    returns without starting node-gyp; otherwise it leaves the flag as it
    was, however it ends. *)
Theorem installHeaders_sets_err_iff_yarn_install_failed h st :
  let r := spawnSync h (str "yarn.cmd") [str "install"] (Some (gyp_cwd h)) in
  (yarn_install_failed r = false <-> sp_error r = false /\ sp_status r = Some 0%Z)
  /\ (yarn_install_failed r = true ->
      installHeaders h st =
        (Ret tt,
         {| err := true;
            log := log st ++ [EvSpawnSync (str "yarn.cmd") [str "install"]
                                (Some (gyp_cwd h));
                              ConsoleError MsgGypFailed] |}))
  /\ (yarn_install_failed r = false ->
      err (snd (installHeaders h st)) = err st).
Proof.
  cbv zeta; split; [|split].
  - unfold yarn_install_failed.
    destruct (sp_error _); cbn [orb]; [split; [discriminate|intros [? _]; discriminate]|].
    destruct (sp_status _) as [z|]; cbn [negb].
    + destruct (Z.eqb_spec z 0); cbn [negb]; split; try discriminate; auto.
      * now subst.
      * intros [_ [= ->]]; contradiction.
    + split; [discriminate|intros [_ ?]; discriminate].
  - intros F; rewrite installHeaders_start; cbv zeta; rewrite F; cbn [log].
    now rewrite <- app_assoc.
  - intros F; rewrite installHeaders_start; cbv zeta; rewrite F.
    destruct (execFileSync h _ _) as [result|]; [|reflexivity].
    destruct (readFileSync h (local_rc h)) as [cl|]; [|reflexivity].
    destruct (readFileSync h (remote_rc h)) as [cr|]; [|reflexivity].
    unfold bind.
    pose proof (install_if_missing_err h (installed_versions result) (parse_header cl)
                  (listed h st)) as E1.
    destruct (install_if_missing h _ _ (parse_header cl) _) as [[[]|e|c] st1];
      cbn [snd] in E1 |- *; try exact E1.
    now rewrite install_if_missing_err.
Qed.

Lemma installHeaders_sets_err_iff_yarn_install_failed_witness :
  installHeaders host_linux_all_wrong initial
  = (Ret tt,
     {| err := true;
        log := [EvSpawnSync (str "yarn.cmd") [str "install"]
                  (Some (gyp_cwd host_linux_all_wrong));
                ConsoleError MsgGypFailed] |}).
Proof.
  apply (proj1 (proj2 (installHeaders_sets_err_iff_yarn_install_failed
                         host_linux_all_wrong initial))).
  reflexivity.
Defined.

(** X10.  [installHeaders] installs nothing before the installed
    versions are listed and both header files are read: when the listing
    throws, or the local file cannot be read, or the remote file cannot
    be read (the local one having been read), it throws that failure and
    has started nothing after the listing. *)
Theorem installHeaders_installs_nothing_before_both_files_are_read h st :
  yarn_install_failed
    (spawnSync h (str "yarn.cmd") [str "install"] (Some (gyp_cwd h))) = false ->
  (execFileSync h (node_gyp_cmd h) [str "list"] = None ->
   installHeaders h st =
     (Throw (Error_execFileSync (node_gyp_cmd h) [str "list"]), listed h st))
  /\ (execFileSync h (node_gyp_cmd h) [str "list"] <> None ->
      readFileSync h (local_rc h) = None ->
      installHeaders h st = (Throw (Error_readFileSync (local_rc h)), listed h st))
  /\ (execFileSync h (node_gyp_cmd h) [str "list"] <> None ->
      readFileSync h (local_rc h) <> None ->
      readFileSync h (remote_rc h) = None ->
      installHeaders h st = (Throw (Error_readFileSync (remote_rc h)), listed h st)).
Proof.
  intros F; rewrite installHeaders_start; cbv zeta; rewrite F.
  split; [|split].
  - now intros ->.
  - intros L ->; destruct (execFileSync h _ _); [reflexivity|contradiction].
  - intros L Rl ->; destruct (execFileSync h _ _); [|contradiction].
    destruct (readFileSync h (local_rc h)); [reflexivity|contradiction].
Qed.

(** X16.  The installed versions are listed once, before both
    installs: when the local and the remote spec name the same target,
    not yet installed, and the local install goes through, the remote
    install is invoked all the same. *)
Theorem installHeaders_lists_installed_versions_once h st result cl cr il ir :
  yarn_install_failed
    (spawnSync h (str "yarn.cmd") [str "install"] (Some (gyp_cwd h))) = false ->
  execFileSync h (node_gyp_cmd h) [str "list"] = Some result ->
  readFileSync h (local_rc h) = Some cl ->
  readFileSync h (remote_rc h) = Some cr ->
  parse_header cl = Some il ->
  parse_header cr = Some ir ->
  target il = target ir ->
  set_has (installed_versions result) (target il) = false ->
  install_throws h il = false ->
  log (snd (installHeaders h st))
  = log (listed h st) ++ [install_event h il; install_event h ir].
Proof.
  intros F L Rl Rr Pl Pr T S X.
  rewrite installHeaders_start; cbv zeta; rewrite F, L, Rl, Rr, Pl, Pr.
  unfold bind; rewrite install_if_missing_run; cbn [wanted]; rewrite S, X.
  rewrite install_if_missing_run; cbn [wanted]; rewrite <- T, S.
  destruct (install_throws h ir); cbn [snd log]; now rewrite <- app_assoc.
Qed.

Lemma installHeaders_installs_nothing_before_both_files_are_read_witness :
  installHeaders host_missing_rc initial
  = (Throw (Error_readFileSync (local_rc host_missing_rc)),
     listed host_missing_rc initial).
Proof.
  apply (proj1 (proj2 (installHeaders_installs_nothing_before_both_files_are_read
                         host_missing_rc initial eq_refl))).
  - discriminate.
  - reflexivity.
Defined.

Lemma installHeaders_lists_installed_versions_once_witness :
  log (snd (installHeaders host_same_target initial))
  = log (listed host_same_target initial)
    ++ [install_event host_same_target
          {| disturl := str "https://example/dist"; target := str "12.0.0" |};
        install_event host_same_target
          {| disturl := str "https://example/remote"; target := str "12.0.0" |}].
Proof.
  apply (installHeaders_lists_installed_versions_once host_same_target initial
           (str "gyp info it worked" ++ [LF] ++ str "10.0.0" ++ [LF])
           (rc_text [CR; LF] (str "https://example/dist") (str "12.0.0"))
           (rc_text [CR; LF] (str "https://example/remote") (str "12.0.0")));
    reflexivity.
Defined.

(** ** Where the values of a header spec come from *)

Lemma search_some r : forall s i m,
  search r i s = Some m ->
  exists pre rest, s = pre ++ rest /\ match_at r (i + List.length pre) rest = Some m.
Proof.
  induction s as [|x s IH]; intros i m H; cbn in H.
  - destruct (match_at r i []) eqn:E; [|discriminate].
    exists [], []; cbn; rewrite Nat.add_0_r; split; congruence.
  - destruct (match_at r i (x :: s)) eqn:E.
    + exists [], (x :: s); cbn; rewrite Nat.add_0_r; split; congruence.
    + destruct (IH _ _ H) as (pre & rest & -> & M).
      exists (x :: pre), rest; split; [reflexivity|].
      now replace (i + List.length (x :: pre)) with (S i + List.length pre)
        by (cbn; lia).
Qed.

(** A match of the pattern of a key captures the quoted value of the
    line. *)
Lemma exec_key_re_capture key line m :
  exec (key_re key) line = Some m ->
  exists v, group m 1 = Some v /\ quoted_value key v line.
Proof.
  intros (pre & rest & -> & M)%search_some.
  unfold match_at, key_re in M; cbn [seq mt] in M.
  apply star_sound in M; destruct M as (i1 & s1 & H1 & M).
  apply steps_star_inv in H1; destruct H1 as (ws0 & _ & -> & _).
  destruct (strip_prefix key s1) as [s2|] eqn:P; [|discriminate].
  apply strip_prefix_inv in P; subst s1.
  apply star_sound in M; destruct M as (i3 & s3 & H3 & M).
  apply steps_star_inv in H3; destruct H3 as (ws1 & W1 & -> & _).
  destruct s3 as [|q s3]; [discriminate|].
  destruct (cu dquote q) eqn:Q; [|discriminate].
  apply N.eqb_eq in Q; subst q.
  apply star_sound in M; destruct M as (i5 & s5 & H5 & M).
  apply steps_star_inv in H5; destruct H5 as (v & V & -> & ->).
  rewrite firstn_span in M.
  destruct s5 as [|q s5]; [discriminate|].
  destruct (cu dquote q) eqn:Q; [|discriminate].
  apply N.eqb_eq in Q; subst q.
  apply star_sound in M; destruct M as (i7 & s7 & H7 & M).
  apply steps_star_inv in H7; destruct H7 as (ws2 & W2 & -> & _).
  destruct s7; [|discriminate].
  injection M as <-.
  exists v; split; [reflexivity|].
  exists (pre ++ ws0), ws1, ws2; rewrite app_nil_r, <- app_assoc; auto.
Qed.

Lemma fold_header_line_disturl_source lines : forall d t v,
  fst (fold_left header_line lines (d, t)) = Some v ->
  d = Some v
  \/ exists line m, In line lines /\ exec disturl_re line = Some m /\ group m 1 = Some v.
Proof.
  induction lines as [|l lines IH]; intros d t v H; [now left|].
  cbn [fold_left] in H; unfold header_line at 2 in H.
  apply IH in H; destruct H as [H|(line & m & Hin & E & G)].
  - destruct (exec disturl_re l) as [m|] eqn:E; [|now left].
    cbn [match_length Nat.leb] in H.
    right; exists l, m; cbn; auto.
  - right; exists line, m; cbn; auto.
Qed.

Lemma fold_header_line_target_source lines : forall d t v,
  snd (fold_left header_line lines (d, t)) = Some v ->
  t = Some v
  \/ exists line m, In line lines /\ exec target_re line = Some m /\ group m 1 = Some v.
Proof.
  induction lines as [|l lines IH]; intros d t v H; [now left|].
  cbn [fold_left] in H; unfold header_line at 2 in H.
  apply IH in H; destruct H as [H|(line & m & Hin & E & G)].
  - destruct (exec target_re l) as [m|] eqn:E; [|now left].
    cbn [match_length Nat.leb] in H.
    right; exists l, m; cbn; auto.
  - right; exists line, m; cbn; auto.
Qed.

(** X13.  When [getHeaderInfo] returns a header spec, the state is
    unchanged, the file was read, and both values come from the file: some
    line gives [disturl] the quoted value returned as disturl and some
    line gives [target] the quoted value returned as target. *)
Theorem getHeaderInfo_values_come_from_the_file h rcFile st i st' :
  getHeaderInfo h rcFile st = (Ret (Some i), st') ->
  st' = st
  /\ exists content,
       readFileSync h rcFile = Some content
       /\ (exists line, In line (split crlf_re content)
                        /\ quoted_value (str "disturl") (disturl i) line)
       /\ (exists line, In line (split crlf_re content)
                        /\ quoted_value (str "target") (target i) line).
Proof.
  intros H.
  destruct (readFileSync h rcFile) as [content|] eqn:R;
    [|rewrite (getHeaderInfo_unreadable _ _ _ R) in H; discriminate].
  rewrite (getHeaderInfo_read _ _ _ _ R) in H; injection H as P <-.
  split; [reflexivity|exists content; split; [reflexivity|]].
  unfold parse_header in P.
  destruct (fold_left header_line (split crlf_re content) (None, None))
    as [[d|] [t|]] eqn:F; try discriminate.
  injection P as <-; cbn [disturl target].
  split.
  - destruct (fold_header_line_disturl_source (split crlf_re content) None None d)
      as [?|(line & m & Hin & E & G)]; [now rewrite F|discriminate|].
    apply exec_key_re_capture in E; destruct E as (v & G' & Q).
    exists line; split; [assumption|congruence].
  - destruct (fold_header_line_target_source (split crlf_re content) None None t)
      as [?|(line & m & Hin & E & G)]; [now rewrite F|discriminate|].
    apply exec_key_re_capture in E; destruct E as (v & G' & Q).
    exists line; split; [assumption|congruence].
Qed.

Lemma getHeaderInfo_values_come_from_the_file_witness :
  exists line,
    In line (split crlf_re (rc_text [CR; LF] (str "https://example/dist") (str "10.0.0")))
    /\ quoted_value (str "target") (str "10.0.0") line.
Proof.
  destruct (getHeaderInfo_values_come_from_the_file host_headers
              (local_rc host_headers) initial
              {| disturl := str "https://example/dist"; target := str "10.0.0" |}
              initial eq_refl)
    as (_ & content & R & _ & T).
  vm_compute in R; injection R as <-.
  exact T.
Defined.

Lemma getHeaderInfo_crlf_file_witness :
  getHeaderInfo
    (host_reading (crlf_file [str "target " ++ quoted (str "12.3.4");
                              str "disturl " ++ quoted (str "https://example/dist")]))
    (str ".yarnrc") initial
  = (Ret (Some {| disturl := str "https://example/dist"; target := str "12.3.4" |}),
     initial).
Proof.
  apply (getHeaderInfo_crlf_file _ (str ".yarnrc") initial
           [str "target " ++ quoted (str "12.3.4");
            str "disturl " ++ quoted (str "https://example/dist")]
           [str "target " ++ quoted (str "12.3.4")]
           (str "disturl " ++ quoted (str "https://example/dist")) []
           [] (str "target " ++ quoted (str "12.3.4"))
           [str "disturl " ++ quoted (str "https://example/dist")]).
  - repeat constructor; discriminate.
  - reflexivity.
  - reflexivity.
  - exists [], (str " "), []; split; [reflexivity|].
    repeat split; repeat constructor.
  - intros line [].
  - reflexivity.
  - exists [], (str " "), []; split; [reflexivity|].
    repeat split; repeat constructor.
  - intros line [<-|[]] K%test_key_re; vm_compute in K; discriminate.
Defined.

(** ** The installed-version set *)

Lemma streq_eq a : forall b, streq a b = true <-> a = b.
Proof.
  induction a as [|x a IH]; intros [|y b]; cbn; split; try discriminate; auto.
  - intros [E1 E2]%andb_prop; apply N.eqb_eq in E1; apply IH in E2; congruence.
  - intros [= -> ->]; rewrite N.eqb_refl; now apply IH.
Qed.

Lemma set_has_In l x : set_has l x = true <-> In x l.
Proof.
  unfold set_has; rewrite existsb_exists; split.
  - intros (y & Hin & E%streq_eq); now subst.
  - intros Hin; exists x; split; [assumption|now apply streq_eq].
Qed.

Lemma split_go_nonempty r : forall s i skip cur, split_go r i s skip cur <> [].
Proof.
  induction s as [|x s IH]; intros i skip cur; cbn; [discriminate|].
  destruct skip; [|apply IH].
  destruct (mt r i (x :: s) [] _) as [[|n]|]; try destruct cur; try discriminate;
    apply IH.
Qed.

Lemma join_with_cons sep x l :
  l <> [] -> join_with sep (x :: l) = x ++ sep ++ join_with sep l.
Proof. destruct l; [contradiction|reflexivity]. Qed.

(** Cutting at LF loses nothing: joining the pieces with LF gives the
    text back. *)
Lemma split_go_lf_join : forall s i cur,
  join_with [LF] (split_go lf_re i s 0 cur) = rev cur ++ s.
Proof.
  induction s as [|x s IH]; intros i cur; cbn [split_go lf_re mt].
  - cbn; now rewrite app_nil_r.
  - unfold cu at 1; destruct (N.eqb_spec x LF) as [->|Hx].
    + replace (S i - i) with 1 by lia.
      rewrite join_with_cons by apply split_go_nonempty.
      now rewrite IH.
    + rewrite IH; cbn [rev]; now rewrite <- app_assoc.
Qed.

Lemma split_go_lf_pieces : forall s i cur piece,
  ~ In LF cur ->
  In piece (split_go lf_re i s 0 cur) -> ~ In LF piece.
Proof.
  induction s as [|x s IH]; intros i cur piece Hc; cbn [split_go lf_re mt].
  - intros [<-|[]]; now rewrite <- in_rev.
  - unfold cu at 1; destruct (N.eqb_spec x LF) as [->|Hx].
    + replace (S i - i) with 1 by lia.
      intros [<-|Hin]; [now rewrite <- in_rev|].
      apply (IH (S i) [] piece); auto.
    + apply IH; intros [E|E]; [congruence|contradiction].
Qed.

(** X14.  Cutting the output of node-gyp at LF loses nothing: there
    is at least one piece, no piece contains an LF, and joining the
    pieces with LF gives the output back. *)
Theorem split_lf_round_trip s :
  join_with [LF] (split lf_re s) = s
  /\ split lf_re s <> []
  /\ forall piece, In piece (split lf_re s) -> ~ In LF piece.
Proof.
  unfold split; destruct s as [|x s].
  - cbn; repeat split; [discriminate|intros piece [<-|[]] []].
  - split; [apply (split_go_lf_join (x :: s) 0 [])|].
    split; [apply split_go_nonempty|].
    intros piece; apply split_go_lf_pieces; auto.
Qed.

(** Cutting a text joined with LF gives the lines back. *)
Lemma split_go_lf_lines : forall lines l i cur,
  Forall (fun p => ~ In LF p) (l :: lines) ->
  split_go lf_re i (join_with [LF] (l :: lines)) 0 cur
  = match lines with
    | [] => [rev cur ++ l]
    | _ :: _ => (rev cur ++ l) :: lines
    end.
Proof.
  assert (One : forall l i cur, ~ In LF l ->
            split_go lf_re i l 0 cur = [rev cur ++ l]).
  { induction l as [|x l IH]; intros i cur Hl; cbn [split_go lf_re mt].
    - now rewrite app_nil_r.
    - unfold cu at 1; destruct (N.eqb_spec x LF) as [->|Hx];
        [exfalso; apply Hl; now left|].
      rewrite IH by (intros E; apply Hl; now right).
      cbn [rev]; now rewrite <- app_assoc. }
  assert (Step : forall l rest i cur, ~ In LF l ->
            split_go lf_re i (l ++ LF :: rest) 0 cur
            = (rev cur ++ l) :: split_go lf_re (S (i + List.length l)) rest 0 []).
  { induction l as [|x l IH]; intros rest i cur Hl; cbn [app split_go lf_re mt List.length].
    - unfold cu at 1; rewrite N.eqb_refl.
      replace (S i - i) with 1 by lia.
      now rewrite app_nil_r, Nat.add_0_r.
    - unfold cu at 1; destruct (N.eqb_spec x LF) as [->|Hx];
        [exfalso; apply Hl; now left|].
      rewrite IH by (intros E; apply Hl; now right).
      cbn [rev]; rewrite <- app_assoc; cbn [app].
      now replace (S i + List.length l) with (i + S (List.length l)) by lia. }
  induction lines as [|l' lines IH]; intros l i cur H.
  - cbn [join_with]; apply One; now inversion H.
  - inversion H as [|? ? Hl H']; subst.
    rewrite join_with_cons by discriminate; cbn [app].
    rewrite Step by assumption.
    rewrite (IH l' _ [] H'); cbn [rev app].
    destruct lines; reflexivity.
Qed.

Lemma split_lf_lines lines :
  lines <> [] ->
  Forall (fun p => ~ In LF p) lines ->
  split lf_re (join_with [LF] lines) = lines.
Proof.
  intros Hne H; destruct lines as [|l lines]; [contradiction|].
  unfold split.
  destruct (join_with [LF] (l :: lines)) as [|x s] eqn:J.
  - destruct lines as [|l' lines].
    + cbn in J; subst; reflexivity.
    + rewrite join_with_cons in J by discriminate.
      destruct l; discriminate.
  - rewrite <- J, split_go_lf_lines by assumption.
    destruct lines; reflexivity.
Qed.

(** X15.  For an output made of lines joined with LF, a version is
    in the installed-version set exactly when it is one of the lines and
    does not start with [gyp info]. *)
Theorem installed_versions_are_the_lines_that_are_not_log_lines lines x :
  lines <> [] ->
  Forall (fun p => ~ In LF p) lines ->
  (set_has (installed_versions (join_with [LF] lines)) x = true
   <-> In x lines /\ startsWith x (str "gyp info") = false).
Proof.
  intros Hne H; unfold installed_versions.
  rewrite (split_lf_lines lines Hne H), set_has_In, filter_In.
  split; intros [Hin S]; split; auto.
  - now apply negb_true_iff.
  - now apply negb_true_iff.
Qed.

Lemma installed_versions_are_the_lines_that_are_not_log_lines_witness :
  set_has (installed_versions (str "gyp info it worked" ++ [LF] ++ str "10.0.0" ++ [LF]))
          (str "10.0.0") = true.
Proof.
  apply (proj2 (installed_versions_are_the_lines_that_are_not_log_lines
                  [str "gyp info it worked"; str "10.0.0"; []] (str "10.0.0")
                  ltac:(discriminate)
                  ltac:(repeat constructor;
                        intros H; vm_compute in H; intuition discriminate))).
  split; [right; left; reflexivity|reflexivity].
Defined.

(** On Windows with a toolchain and the error flag clear, the branch
    enables the Spectre mode and goes on to install the headers. *)
Lemma windows_branch_without_failure h vsPath st :
  streq (platform h) (str "win32") = true ->
  fst (findSupportedVisualStudioVersion h initial) = Ret (VStr vsPath) ->
  err st = false ->
  windows_branch h st
  = installHeaders h {| err := false; log := log st ++ spectre_events h vsPath |}.
Proof.
  intros W D F.
  destruct (versions_loop_sound h [str "2022"; str "2019"; str "2017"] initial)
    as (v & E & [->|(p & -> & Hne & _)]);
    fold (findSupportedVisualStudioVersion h) in E; rewrite E in D; cbn [fst] in D;
    [discriminate|injection D as ->].
  unfold windows_branch; rewrite W.
  rewrite (bind_ret _ _ st (VStr vsPath) st)
    by (rewrite findSupportedVisualStudioVersion_pure, E; reflexivity).
  destruct vsPath as [|x p]; [contradiction|]; cbn [truthy negb when].
  rewrite (bind_ret (ret tt) _ st tt st eq_refl).
  rewrite (bind_ret _ _ _ _ _ (enableSpectreMode_run h (x :: p) st)).
  unfold bind, get_err, when, ret; cbn [err log negb]; now rewrite F.
Qed.

(** X17.  On Windows with a toolchain, all gates passing, the yarn
    install of node-gyp succeeding, the listing and both header files
    read, and no install throwing, the run ends normally with the flag
    clear, having enabled the Spectre mode, installed node-gyp, listed
    the versions and installed each wanted spec, local first. *)
Theorem run_on_windows_installs_wanted_headers h m out m' vsPath result cl cr :
  streq (platform h) (str "win32") = true ->
  exec version_re (versions_node h) = Some m ->
  execSync h (str "yarn -v") = Some out ->
  exec version_re (trim out) = Some m' ->
  fst (findSupportedVisualStudioVersion h initial) = Ret (VStr vsPath) ->
  yarn_install_failed
    (spawnSync h (str "yarn.cmd") [str "install"] (Some (gyp_cwd h))) = false ->
  execFileSync h (node_gyp_cmd h) [str "list"] = Some result ->
  readFileSync h (local_rc h) = Some cl ->
  readFileSync h (remote_rc h) = Some cr ->
  let node_old := node_fails (parseInt (group m 1)) (parseInt (group m 2)) in
  let node_new := num_ge (parseInt (group m 1)) 17 in
  let yarn_bad := yarn_fails (parseInt (group m' 1)) (parseInt (group m' 2))
                             (parseInt (group m' 3)) in
  let not_yarn := negb (test yarn_re (to_string (process_env h (str "npm_execpath")))) in
  let installs := wanted (installed_versions result) (parse_header cl)
                  ++ wanted (installed_versions result) (parse_header cr) in
  node_old || yarn_bad || not_yarn = false ->
  existsb (install_throws h) installs = false ->
  run h =
    (Ret tt,
     {| err := false;
        log := gate_events node_old node_new yarn_bad not_yarn
               ++ spectre_events h vsPath
               ++ [EvSpawnSync (str "yarn.cmd") [str "install"] (Some (gyp_cwd h));
                   EvExecFileSync (node_gyp_cmd h) [str "list"]]
               ++ map (install_event h) installs |}).
Proof.
  intros W N Y Y' D YI L Rl Rr; cbv zeta; intros F X.
  unfold run, script; rewrite (gates_run h m out m' _ _ N Y Y'), F.
  assert (I : forall st, err st = false ->
            installHeaders h st =
              (Ret tt,
               {| err := false;
                  log := log (listed h st)
                         ++ map (install_event h)
                              (wanted (installed_versions result) (parse_header cl)
                               ++ wanted (installed_versions result) (parse_header cr)) |})).
  { intros st Hs; rewrite installHeaders_start; cbv zeta; rewrite YI, L, Rl, Rr.
    rewrite existsb_app in X; apply orb_false_elim in X; destruct X as [Xl Xr].
    unfold bind; rewrite install_if_missing_run.
    destruct (wanted _ (parse_header cl)) as [|il [|? ?]] eqn:Wl;
      [| |destruct (parse_header cl); cbn in Wl;
          [destruct (set_has _ _)|]; discriminate].
    - rewrite install_if_missing_run.
      destruct (wanted _ (parse_header cr)) as [|ir ?] eqn:Wr; cbn [map app].
      + unfold listed; cbn [err log]; now rewrite Hs, app_nil_r.
      + assert (Er : install_throws h ir = false)
          by (cbn in Xr; now apply orb_false_elim in Xr).
        rewrite Er.
        destruct l; [|destruct (parse_header cr); cbn in Wr;
                      [destruct (set_has _ _)|]; discriminate].
        unfold listed, install_event; cbn [err log map]; now rewrite Hs.
    - assert (El : install_throws h il = false)
        by (cbn in Xl; now apply orb_false_elim in Xl).
      rewrite El, install_if_missing_run.
      destruct (wanted _ (parse_header cr)) as [|ir ?] eqn:Wr; cbn [map app err log].
      + unfold listed, install_event; cbn [err log]; now rewrite Hs.
      + assert (Er : install_throws h ir = false)
          by (cbn in Xr; now apply orb_false_elim in Xr).
        rewrite Er.
        destruct l; [|destruct (parse_header cr); cbn in Wr;
                      [destruct (set_has _ _)|]; discriminate].
        unfold listed, install_event; cbn [err log map];
          now rewrite Hs, <- app_assoc. }
  erewrite bind_ret;
    [|rewrite (windows_branch_without_failure h vsPath {| err := false; log := _ |}
                 W D eq_refl);
      rewrite I by reflexivity; reflexivity].
  unfold final_check, get_err, bind, ret; cbn [err log].
  unfold listed; cbn [log]; now rewrite <- !app_assoc.
Qed.

Lemma run_on_windows_installs_wanted_headers_witness :
  run host_headers
  = (Ret tt,
     {| err := false;
        log := [EvExecSync (str "yarn -v");
                EvSpawnSync (vcvarsall host_headers
                               (str "C:\Program Files\Microsoft Visual Studio\2022\Enterprise"))
                            [spectre_arg] None;
                EvSpawnSync (str "yarn.cmd") [str "install"] (Some (gyp_cwd host_headers));
                EvExecFileSync (node_gyp_cmd host_headers) [str "list"];
                install_event host_headers
                  {| disturl := str "https://example/remote"; target := str "12.0.0" |}] |}).
Proof.
  destruct (exec version_re (versions_node host_headers)) as [m|] eqn:N;
    [|vm_compute in N; discriminate].
  destruct (exec version_re (trim (str "1.22.19" ++ [LF]))) as [m'|] eqn:Y;
    [|vm_compute in Y; discriminate].
  rewrite (run_on_windows_installs_wanted_headers host_headers m
             (str "1.22.19" ++ [LF]) m'
             (str "C:\Program Files\Microsoft Visual Studio\2022\Enterprise")
             (str "gyp info it worked" ++ [LF] ++ str "10.0.0" ++ [LF])
             (rc_text [CR; LF] (str "https://example/dist") (str "10.0.0"))
             (rc_text [CR; LF] (str "https://example/remote") (str "12.0.0"))
             eq_refl N eq_refl Y eq_refl eq_refl eq_refl eq_refl eq_refl).
  - vm_compute in N; injection N as <-.
    vm_compute in Y; injection Y as <-.
    vm_compute; reflexivity.
  - vm_compute in N; injection N as <-.
    vm_compute in Y; injection Y as <-.
    reflexivity.
  - reflexivity.
Defined.

(** ** Header files that cannot be read, or lack a key *)

(** On Windows with a toolchain and every gate passing, the run is
    [installHeaders], started after the gates and the Spectre mode, and
    then the final check. *)
Lemma run_through_installHeaders h m out m' vsPath :
  streq (platform h) (str "win32") = true ->
  exec version_re (versions_node h) = Some m ->
  execSync h (str "yarn -v") = Some out ->
  exec version_re (trim out) = Some m' ->
  fst (findSupportedVisualStudioVersion h initial) = Ret (VStr vsPath) ->
  let node_old := node_fails (parseInt (group m 1)) (parseInt (group m 2)) in
  let node_new := num_ge (parseInt (group m 1)) 17 in
  let yarn_bad := yarn_fails (parseInt (group m' 1)) (parseInt (group m' 2))
                             (parseInt (group m' 3)) in
  let not_yarn := negb (test yarn_re (to_string (process_env h (str "npm_execpath")))) in
  node_old || yarn_bad || not_yarn = false ->
  run h =
    (installHeaders h ;; final_check)
      {| err := false;
         log := gate_events node_old node_new yarn_bad not_yarn
                ++ spectre_events h vsPath |}.
Proof.
  intros W N Y Y' D; cbv zeta; intros F.
  unfold run, script; rewrite (gates_run h m out m' _ _ N Y Y'), F.
  unfold bind.
  now rewrite (windows_branch_without_failure h vsPath {| err := false; log := _ |}
                 W D eq_refl).
Qed.

(** C3, amended.  Both header files are read without a check that
    they exist.  A file that cannot be read makes [getHeaderInfo] throw;
    [installHeaders] throws with it before any install, the local file
    being read first; nothing catches it, so a run that gets there ends
    with that exception and status 1.  When a file has been read and no
    line of it carries the disturl key, or none carries the target key,
    [getHeaderInfo] returns undefined for it, [installHeaders] attempts
    no install for it (its install invocations are those of the other
    file alone) and the error flag stays as it was. *)
Theorem header_spec_without_key_is_skipped h st :
  (forall rcFile,
     readFileSync h rcFile = None ->
     getHeaderInfo h rcFile st = (Throw (Error_readFileSync rcFile), st))
  /\ (yarn_install_failed
        (spawnSync h (str "yarn.cmd") [str "install"] (Some (gyp_cwd h))) = false ->
      execFileSync h (node_gyp_cmd h) [str "list"] <> None ->
      (readFileSync h (local_rc h) = None ->
       installHeaders h st = (Throw (Error_readFileSync (local_rc h)), listed h st))
      /\ (readFileSync h (local_rc h) <> None ->
          readFileSync h (remote_rc h) = None ->
          installHeaders h st =
            (Throw (Error_readFileSync (remote_rc h)), listed h st)))
  /\ (forall m out m' vsPath,
        streq (platform h) (str "win32") = true ->
        exec version_re (versions_node h) = Some m ->
        execSync h (str "yarn -v") = Some out ->
        exec version_re (trim out) = Some m' ->
        fst (findSupportedVisualStudioVersion h initial) = Ret (VStr vsPath) ->
        let node_old := node_fails (parseInt (group m 1)) (parseInt (group m 2)) in
        let node_new := num_ge (parseInt (group m 1)) 17 in
        let yarn_bad := yarn_fails (parseInt (group m' 1)) (parseInt (group m' 2))
                                   (parseInt (group m' 3)) in
        let not_yarn :=
          negb (test yarn_re (to_string (process_env h (str "npm_execpath")))) in
        node_old || yarn_bad || not_yarn = false ->
        yarn_install_failed
          (spawnSync h (str "yarn.cmd") [str "install"] (Some (gyp_cwd h))) = false ->
        execFileSync h (node_gyp_cmd h) [str "list"] <> None ->
        readFileSync h (local_rc h) = None \/ readFileSync h (remote_rc h) = None ->
        exists rcFile,
          (rcFile = local_rc h \/ rcFile = remote_rc h)
          /\ readFileSync h rcFile = None
          /\ run h =
               (Throw (Error_readFileSync rcFile),
                listed h {| err := false;
                            log := gate_events node_old node_new yarn_bad not_yarn
                                   ++ spectre_events h vsPath |})
          /\ exit_status (fst (run h)) = 1%Z)
  /\ (forall result cl cr,
        sp_error (spawnSync h (str "yarn.cmd") [str "install"] (Some (gyp_cwd h)))
        = false ->
        sp_status (spawnSync h (str "yarn.cmd") [str "install"] (Some (gyp_cwd h)))
        = Some 0%Z ->
        execFileSync h (node_gyp_cmd h) [str "list"] = Some result ->
        readFileSync h (local_rc h) = Some cl ->
        readFileSync h (remote_rc h) = Some cr ->
        (key_absent (str "disturl") cl \/ key_absent (str "target") cl ->
         getHeaderInfo h (local_rc h) st = (Ret None, st)
         /\ exists r st',
              installHeaders h st = (r, st')
              /\ err st' = err st
              /\ log st' = log (listed h st)
                           ++ map (install_event h)
                                  (wanted (installed_versions result) (parse_header cr)))
        /\ (key_absent (str "disturl") cr \/ key_absent (str "target") cr ->
            getHeaderInfo h (remote_rc h) st = (Ret None, st)
            /\ exists r st',
                 installHeaders h st = (r, st')
                 /\ err st' = err st
                 /\ log st' = log (listed h st)
                              ++ map (install_event h)
                                     (wanted (installed_versions result)
                                             (parse_header cl)))).
Proof.
  split; [intros rcFile R; now apply getHeaderInfo_unreadable|].
  split; [|split].
  - intros F L; rewrite installHeaders_start; cbv zeta; rewrite F.
    destruct (execFileSync h _ _); [|contradiction].
    split.
    + now intros ->.
    + intros Rl ->; destruct (readFileSync h (local_rc h)); [reflexivity|contradiction].
  - intros m out m' vsPath W N Y Y' D; cbv zeta; intros G F L R.
    rewrite (run_through_installHeaders h m out m' vsPath W N Y Y' D G).
    unfold bind; rewrite installHeaders_start; cbv zeta; rewrite F.
    destruct (execFileSync h _ _); [|contradiction].
    destruct (readFileSync h (local_rc h)) as [cl|] eqn:Rl.
    + destruct R as [R|R]; [discriminate|].
      exists (remote_rc h); rewrite R; repeat split; auto.
    + exists (local_rc h); repeat split; auto.
  - intros result cl cr E1 E2 L Rl Rr.
    destruct (installHeaders_trace h st result cl cr E1 E2 L Rl Rr)
      as (r & st' & E & He & Hl).
    split; intros A%parse_header_absent.
    + split; [now rewrite (getHeaderInfo_read _ _ _ _ Rl), A|].
      rewrite A in Hl; cbn [wanted existsb app] in Hl; eauto.
    + split; [now rewrite (getHeaderInfo_read _ _ _ _ Rr), A|].
      rewrite A in Hl; cbn [wanted] in Hl.
      exists r, st'; repeat split; [assumption..|].
      rewrite Hl; destruct (existsb _ _) eqn:X; now rewrite app_nil_r.
Qed.

Lemma header_spec_without_key_is_skipped_witness :
  (key_absent (str "disturl") (str "runtime " ++ quoted (str "electron") ++ [CR; LF])
   /\ getHeaderInfo host_no_local_spec (local_rc host_no_local_spec) initial
      = (Ret None, initial)
   /\ exists r,
        installHeaders host_no_local_spec initial =
          (r, {| err := false;
                 log := log (listed host_no_local_spec initial)
                        ++ [install_event host_no_local_spec
                              {| disturl := str "https://example/remote";
                                 target := str "12.0.0" |}] |}))
  /\ (readFileSync host_missing_rc (local_rc host_missing_rc) = None
      /\ exit_status (fst (run host_missing_rc)) = 1%Z).
Proof.
  split.
  - assert (A : key_absent (str "disturl")
                  (str "runtime " ++ quoted (str "electron") ++ [CR; LF])).
    { intros line Hin K%test_key_re.
      vm_compute in Hin; destruct Hin as [<-|[<-|[]]]; vm_compute in K; discriminate. }
    destruct (proj1 (proj2 (proj2 (proj2
                (header_spec_without_key_is_skipped host_no_local_spec initial)))
                (str "gyp info it worked" ++ [LF] ++ str "10.0.0" ++ [LF])
                (str "runtime " ++ quoted (str "electron") ++ [CR; LF])
                (rc_text [CR; LF] (str "https://example/remote") (str "12.0.0"))
                eq_refl eq_refl eq_refl eq_refl eq_refl) (or_introl A))
      as (G & r & st' & E & He & Hl).
    split; [exact A|split; [exact G|]].
    exists r; rewrite E; f_equal.
    destruct st' as [e l]; cbn [err log] in He, Hl; subst e l.
    vm_compute; reflexivity.
  - split; [reflexivity|].
    destruct (exec version_re (versions_node host_missing_rc)) as [m|] eqn:N;
      [|vm_compute in N; discriminate].
    destruct (exec version_re (trim (str "1.22.19" ++ [LF]))) as [m'|] eqn:Y;
      [|vm_compute in Y; discriminate].
    destruct (proj1 (proj2 (proj2
                (header_spec_without_key_is_skipped host_missing_rc initial)))
                m (str "1.22.19" ++ [LF]) m'
                (str "C:\Program Files\Microsoft Visual Studio\2022\Enterprise")
                eq_refl N eq_refl Y eq_refl)
      as (rcFile & _ & _ & _ & X).
    + vm_compute in N; injection N as <-.
      vm_compute in Y; injection Y as <-.
      reflexivity.
    + reflexivity.
    + discriminate.
    + left; reflexivity.
    + exact X.
Defined.
